(** * Session coordination core of the PDF co-viewer (src/index.js)

    A shallow embedding of the socket handlers of [src/index.js]
    (lines 62 and 76-167): the [sessions] table, the four socket events
    ([create-session], [join-session], [page-change], [disconnect]) and
    the hourly expiry sweep, followed by the properties of the
    specification that concern them. *)

From stdpp Require Import gmap strings list.
From Stdlib Require Import ZArith Ascii DecimalString.

Local Open Scope string_scope.
Local Open Scope list_scope.
Local Open Scope Z_scope.

(** ** Values

    Event payloads arrive from the client as arbitrary JSON; none of the
    handlers checks their type.  Three shapes are enough to tell apart
    everything the handlers do with a payload: an integer, a string, and
    [null] (a missing argument, [undefined], fares as [null] does). *)
Inductive jsval :=
| JNum (n : Z)
| JStr (s : string)
| JNull.

#[global] Instance jsval_eq_dec : EqDecision jsval.
Proof. solve_decision. Defined.

(** A positive integer, as the data model wants [currentPage] to be. *)
Definition is_positive_integer (v : jsval) : bool :=
  match v with
  | JNum n => 0 <? n
  | _ => false
  end.

(** [socket.id]. *)
Abbreviation conn := string.

(** ** The session record (lines 82-88) *)
Record session := mkSession {
  admin : conn;
  viewers : gset conn;
  currentPage : jsval;
  pdfUrl : jsval;
  createdAt : Z
}.

#[global] Instance session_eq_dec : EqDecision session.
Proof. solve_decision. Defined.

Definition set_viewers (v : gset conn) (s : session) : session :=
  mkSession (admin s) v (currentPage s) (pdfUrl s) (createdAt s).

Definition set_currentPage (p : jsval) (s : session) : session :=
  mkSession (admin s) (viewers s) p (pdfUrl s) (createdAt s).

(** [s.viewers.add(c)] and [s.viewers.delete(c)]. *)
Definition add_viewer (c : conn) (s : session) : session :=
  set_viewers ({[ c ]} ∪ viewers s) s.

Definition remove_viewer (c : conn) (s : session) : session :=
  set_viewers (viewers s ∖ {[ c ]}) s.

(** ** The table [const sessions = {}] (line 62)

    A plain object used as a dictionary.  Its own properties are kept in
    insertion order, which is the order [for (const sessionId in sessions)]
    visits them in (the keys are UUID strings, never array indices). *)
Abbreviation store := (list (string * session)).

Definition keys (st : store) : list string := map fst st.

(** Own-property lookup. *)
Fixpoint own (k : string) (st : store) : option session :=
  match st with
  | [] => None
  | (k', s) :: rest => if decide (k' = k) then Some s else own k rest
  end.

(** [sessions[k] = s]: an existing own property keeps its place, a new one
    goes last. *)
Fixpoint store_set (k : string) (s : session) (st : store) : store :=
  match st with
  | [] => [(k, s)]
  | (k', s') :: rest =>
      if decide (k' = k) then (k', s) :: rest else (k', s') :: store_set k s rest
  end.

(** Mutation of the object [sessions[k]] refers to. *)
Fixpoint store_modify (k : string) (f : session → session) (st : store) : store :=
  match st with
  | [] => []
  | (k', s') :: rest =>
      if decide (k' = k) then (k', f s') :: rest
      else (k', s') :: store_modify k f rest
  end.

(** [delete sessions[k]]. *)
Fixpoint store_delete (k : string) (st : store) : store :=
  match st with
  | [] => []
  | (k', s') :: rest =>
      if decide (k' = k) then rest else (k', s') :: store_delete k rest
  end.

(** The table is created by the literal [{}], so a read [sessions[k]] that
    finds no own property continues in [Object.prototype].  These are the
    names it finds there; each holds a function (or, for [__proto__], the
    prototype object itself): a truthy value with no [admin], [viewers],
    [currentPage], [pdfUrl] or [createdAt] property. *)
Definition object_prototype_names : list string :=
  [ "constructor"; "__proto__"; "hasOwnProperty"; "isPrototypeOf";
    "propertyIsEnumerable"; "toLocaleString"; "toString"; "valueOf";
    "__defineGetter__"; "__defineSetter__"; "__lookupGetter__";
    "__lookupSetter__" ].

Definition inherited (k : string) : bool :=
  bool_decide (k ∈ object_prototype_names).

(** The value of the expression [sessions[k]]. *)
Inductive lookup_result :=
| Own (s : session)
| Inherited
| Undefined.

Definition get (st : store) (k : string) : lookup_result :=
  match own k st with
  | Some s => Own s
  | None => if inherited k then Inherited else Undefined
  end.

(** ** The uploads directory (lines 13-17, 142-147)

    [filePath] is [path.join(uploadsDir, path.basename(pdfUrl))], with
    [path] and [fs] behaving as Node documents them on a POSIX system.  A
    basename has no [/] in it, so the join lands on one of three kinds of
    path: the uploads directory itself, its parent [__dirname], or an entry
    of the uploads directory. *)
Inductive fspath :=
| AppDir
| UploadsDir
| UploadEntry (name : string).

#[global] Instance fspath_eq_dec : EqDecision fspath.
Proof. solve_decision. Defined.

Definition slash : ascii := "/"%char.

Fixpoint skip_slashes (l : list ascii) : list ascii :=
  match l with
  | [] => []
  | a :: r => if decide (a = slash) then skip_slashes r else l
  end.

Fixpoint upto_slash (l : list ascii) : list ascii :=
  match l with
  | [] => []
  | a :: r => if decide (a = slash) then [] else a :: upto_slash r
  end.

(** POSIX [path.basename]: trailing slashes are dropped, then everything
    after the last remaining slash is returned. *)
Definition basename (p : string) : string :=
  String.string_of_list_ascii
    (rev (upto_slash (skip_slashes (rev (String.list_ascii_of_string p))))).

(** [path.join(uploadsDir, base)] for a slash-free [base]; the join
    normalises the empty segment, [.] and [..] away. *)
Definition filePath (base : string) : fspath :=
  if decide (base = "") then UploadsDir
  else if decide (base = ".") then UploadsDir
  else if decide (base = "..") then AppDir
  else UploadEntry base.

(** The file system is represented by the names of the regular files in
    the uploads directory.  The directory itself exists from start-up
    (lines 15-17) and so does its parent. *)
Definition existsSync (files : gset string) (p : fspath) : bool :=
  match p with
  | UploadEntry n => bool_decide (n ∈ files)
  | AppDir | UploadsDir => true
  end.

(** [fs.unlinkSync]: [None] stands for a thrown error ([EISDIR]/[EPERM] on
    a directory, [ENOENT] on a missing entry).  Removing a regular file of
    the uploads directory is taken to succeed. *)
Definition unlinkSync (files : gset string) (p : fspath) : option (gset string) :=
  match p with
  | UploadEntry n => if bool_decide (n ∈ files) then Some (files ∖ {[ n ]}) else None
  | AppDir | UploadsDir => None
  end.

(** ** Server state

    The table, the rooms socket.io keeps (a socket is put into a room by
    [socket.join] and taken out of all of them when it closes), and the
    uploads directory. *)
Record server := mkServer {
  sessions : store;
  rooms : gmap string (gset conn);  (* socket.io rooms: room name -> sockets *)
  uploads : gset string             (* regular files in the uploads directory *)
}.

Definition with_sessions (st : store) (sv : server) : server :=
  mkServer st (rooms sv) (uploads sv).

Definition room_members (sv : server) (r : string) : gset conn :=
  default ∅ (rooms sv !! r).

(** [socket.join(r)]. *)
Definition socket_join (c : conn) (r : string) (sv : server) : server :=
  mkServer (sessions sv) (<[ r := {[ c ]} ∪ room_members sv r ]> (rooms sv)) (uploads sv).

(** socket.io takes a closing socket out of every room before it fires
    [disconnect]. *)
Definition socket_leave_all (c : conn) (sv : server) : server :=
  mkServer (sessions sv) ((λ m, m ∖ {[ c ]}) <$> rooms sv) (uploads sv).

(** ** What a handler does to the outside *)
Inductive message :=
| SessionCreated (sessionId : string)
| SessionJoined (url page : jsval)
| PageUpdate (pageNumber : jsval)
| ErrorMessage (text : string).

Inductive effect :=
| Emit (c : conn) (m : message)           (* socket.emit(...) *)
| EmitRoom (room : string) (m : message)  (* io.to(room).emit(...) *)
| Unlink (p : fspath)                     (* fs.unlinkSync(p) was called *)
| ConsoleError (text : string).           (* console.error(...) *)

#[global] Instance message_eq_dec : EqDecision message.
Proof. solve_decision. Defined.

#[global] Instance effect_eq_dec : EqDecision effect.
Proof. solve_decision. Defined.

(** The sockets an emission reaches, in the state it was emitted in. *)
Definition recipients (sv : server) (e : effect) : gset conn :=
  match e with
  | Emit c _ => {[ c ]}
  | EmitRoom r _ => room_members sv r
  | _ => ∅
  end.

Definition SessionNotFound : message := ErrorMessage "Session not found".
Definition Unauthorized : message := ErrorMessage "Unauthorized to change page".

(** ** Handlers *)

(** [create-session] (lines 79-96).  [sessionId] is the value [uuidv4()]
    returned and [now] the value of [Date.now()]. *)
Definition create_session (c : conn) (sessionId : string) (now : Z) (url : jsval)
    (sv : server) : server * list effect :=
  let s := mkSession c ∅ (JNum 1) url now in
  let sv1 := with_sessions (store_set sessionId s (sessions sv)) sv in
  (socket_join c sessionId sv1, [Emit c (SessionCreated sessionId)]).

(** [join-session] (lines 98-115). *)
Definition join_session (c : conn) (sessionId : string) (sv : server)
    : server * list effect :=
  match get (sessions sv) sessionId with
  | Undefined => (sv, [Emit c SessionNotFound])
  | Inherited =>
      (* line 104 runs, then [sessions[sessionId].viewers] is undefined and
         [.add] throws a TypeError, caught on line 111 *)
      (socket_join c sessionId sv,
       [ConsoleError "Error joining session:";
        Emit c (ErrorMessage "Failed to join session")])
  | Own s =>
      let sv1 := socket_join c sessionId sv in
      (with_sessions (store_modify sessionId (add_viewer c) (sessions sv1)) sv1,
       [Emit c (SessionJoined (pdfUrl s) (currentPage s))])
  end.

(** [page-change] (lines 117-135). *)
Definition page_change (c : conn) (sessionId : string) (pageNumber : jsval)
    (sv : server) : server * list effect :=
  match get (sessions sv) sessionId with
  | Undefined => (sv, [Emit c SessionNotFound])
  | Inherited =>
      (* [.admin] of the inherited value is undefined, which is [!==] any
         socket id *)
      (sv, [Emit c Unauthorized])
  | Own s =>
      if decide (admin s = c) then
        (with_sessions
           (store_modify sessionId (set_currentPage pageNumber) (sessions sv)) sv,
         [EmitRoom sessionId (PageUpdate pageNumber)])
      else (sv, [Emit c Unauthorized])
  end.

(** The body of the [disconnect] loop (lines 141-151) for one key.  The
    third component tells whether the body threw; what was done before the
    throw stays done. *)
Definition cleanup_session (c : conn) (sessionId : string) (s : session)
    (sv : server) : server * list effect * bool :=
  if decide (admin s = c) then
    match pdfUrl s with
    | JStr url =>
        let p := filePath (basename url) in
        if existsSync (uploads sv) p then
          match unlinkSync (uploads sv) p with
          | Some files =>
              (mkServer (store_delete sessionId (sessions sv)) (rooms sv) files,
               [Unlink p], false)
          | None => (sv, [Unlink p], true)
          end
        else (with_sessions (store_delete sessionId (sessions sv)) sv, [], false)
    | _ => (sv, [], true)  (* path.basename rejects a non-string *)
    end
  else
    (with_sessions (store_modify sessionId (remove_viewer c) (sessions sv)) sv,
     [], false).

(** [for (const sessionId in sessions)] over the keys [ks] still to visit;
    a key deleted before its turn is skipped.  The loop stops at the first
    throw: the [try] (line 138) is around the whole loop. *)
Fixpoint disconnect_loop (c : conn) (ks : list string) (sv : server)
    : server * list effect * bool :=
  match ks with
  | [] => (sv, [], false)
  | k :: ks' =>
      match own k (sessions sv) with
      | None => disconnect_loop c ks' sv
      | Some s =>
          let '(sv1, e1, thrown) := cleanup_session c k s sv in
          if thrown then (sv1, e1, true)
          else
            let '(sv2, e2, thrown2) := disconnect_loop c ks' sv1 in
            (sv2, e1 ++ e2, thrown2)
      end
  end.

(** [disconnect] (lines 137-156). *)
Definition disconnect (c : conn) (sv : server) : server * list effect :=
  let sv0 := socket_leave_all c sv in
  let '(sv1, e, thrown) := disconnect_loop c (keys (sessions sv0)) sv0 in
  (sv1, if thrown then e ++ [ConsoleError "Error handling disconnect:"] else e).

(** ** Expiry sweep (lines 160-167) *)
Definition DAY : Z := 24 * 60 * 60 * 1000.

Definition expired (now : Z) (s : session) : bool :=
  now - createdAt s >? DAY.

Fixpoint sweep_loop (now : Z) (ks : list string) (st : store) : store :=
  match ks with
  | [] => st
  | k :: ks' =>
      match own k st with
      | None => sweep_loop now ks' st
      | Some s =>
          sweep_loop now ks' (if expired now s then store_delete k st else st)
      end
  end.

Definition sweep (now : Z) (sv : server) : server * list effect :=
  (with_sessions (sweep_loop now (keys (sessions sv)) (sessions sv)) sv, []).

(** ** Events and runs

    What reaches the server: the four socket events with the id of the
    socket they arrive on, a tick of the sweep timer, and an upload.  A
    session id is a string here, which is what a property key is once
    [sessions[sessionId]] has coerced it. *)
Inductive event :=
| CreateSession (c : conn) (sessionId : string) (now : Z) (url : jsval)
| JoinSession (c : conn) (sessionId : string)
| PageChange (c : conn) (sessionId : string) (pageNumber : jsval)
| Disconnect (c : conn)
| Sweep (now : Z)
| Upload (filename : string).  (* POST /upload stored a file (lines 24-33, 64) *)

Definition step (e : event) (sv : server) : server * list effect :=
  match e with
  | CreateSession c sessionId now url => create_session c sessionId now url sv
  | JoinSession c sessionId => join_session c sessionId sv
  | PageChange c sessionId pageNumber => page_change c sessionId pageNumber sv
  | Disconnect c => disconnect c sv
  | Sweep now => sweep now sv
  | Upload f => (mkServer (sessions sv) (rooms sv) ({[ f ]} ∪ uploads sv), [])
  end.

Fixpoint run (es : list event) (sv : server) : server :=
  match es with
  | [] => sv
  | e :: es' => run es' (fst (step e sv))
  end.

(** The server right after start-up, with [files] already in the uploads
    directory. *)
Definition start (files : gset string) : server := mkServer [] ∅ files.

(** ** Upload (lines 24-33, 64-74)

    The name multer's [filename] callback gives a stored file, and the
    route handler that answers with its URL. *)

(** The character class [[a-zA-Z0-9]]. *)
Definition is_alnum (a : ascii) : bool :=
  let n := N_of_ascii a in
  ((48 <=? n) && (n <=? 57) || (65 <=? n) && (n <=? 90)
   || (97 <=? n) && (n <=? 122))%N.

(** [s.replace(/[^a-zA-Z0-9]/g, '-')] (line 30): every character outside
    the class becomes a [-]. *)
Fixpoint sanitize (s : string) : string :=
  match s with
  | EmptyString => EmptyString
  | String a r => String (if is_alnum a then a else "-"%char) (sanitize r)
  end.

(** An integer inside a template literal: its decimal digits. *)
Definition decimal (n : Z) : string := NilZero.string_of_int (Z.to_int n).

(** The [filename] callback (lines 28-32); [now] is [Date.now()]. *)
Definition filename (fieldname : string) (now : Z) : string :=
  sanitize fieldname +:+ "-" +:+ decimal now +:+ ".pdf".

(** The answer of [POST /upload] (lines 64-74); [file] is
    [req.file.filename] when multer stored a file. *)
Inductive upload_response :=
| FileUrl (fileUrl : string)
| UploadError (status : Z) (error : string).

Definition upload_route (file : option string) : upload_response :=
  match file with
  | None => UploadError 400 "No file uploaded"
  | Some name => FileUrl ("/uploads/" +:+ name)
  end.

(** * Vocabulary of the properties *)

(** ** Tables and runs *)

(** The own keys of the table are distinct, as the properties of an object
    are. *)
Definition wf (sv : server) : Prop := NoDup (keys (sessions sv)).

#[global] Instance wf_dec sv : Decision (wf sv).
Proof. unfold wf. apply _. Defined.

(** A property of session records, of every record in a table. *)
Definition every_session (P : session → Prop) (st : store) : Prop :=
  Forall (λ ks, P (snd ks)) st.

(** A run in which every event meets a side condition in the state it
    arrives in. *)
Fixpoint along (ok : event → server → bool) (es : list event) (sv : server) : bool :=
  match es with
  | [] => true
  | e :: es' => ok e sv && along ok es' (fst (step e sv))
  end.

(** ** The controller among the viewers *)

(** The property of the data model: no session lists its controller among
    its viewers. *)
Definition viewers_exclude_controller (sv : server) : Prop :=
  ∀ k s, own k (sessions sv) = Some s → admin s ∉ viewers s.

(** A [join-session] sent by the controller of the session it names. *)
Definition self_join (e : event) (sv : server) : bool :=
  match e with
  | JoinSession c k =>
      match own k (sessions sv) with
      | Some s => bool_decide (admin s = c)
      | None => false
      end
  | _ => false
  end.

Definition no_self_join (e : event) (sv : server) : bool := negb (self_join e sv).

(** ** The page position *)

(** The property of the data model: every [currentPage] is a positive
    integer. *)
Definition currentPage_positive (sv : server) : Prop :=
  ∀ k s, own k (sessions sv) = Some s → is_positive_integer (currentPage s) = true.

(** A [page-change] that the handler accepts carries a positive integer. *)
Definition page_ok (e : event) (sv : server) : bool :=
  match e with
  | PageChange c k page =>
      match own k (sessions sv) with
      | Some s => if decide (admin s = c) then is_positive_integer page else true
      | None => true
      end
  | _ => true
  end.

(** ** The sweep *)

(** What the sweep keeps: sessions no older than 24 hours. *)
Definition fresh (now : Z) (ks : string * session) : Prop :=
  now - createdAt (snd ks) ≤ DAY.

#[global] Instance fresh_dec now ks : Decision (fresh now ks).
Proof. unfold fresh. apply _. Defined.

(** ** Disconnect reconciliation *)

(** The entry of the uploads directory that [pdfUrl] resolves to, if it is
    a string that resolves to one. *)
Definition blob_of (s : session) : option string :=
  match pdfUrl s with
  | JStr url =>
      match filePath (basename url) with
      | UploadEntry n => Some n
      | AppDir | UploadsDir => None
      end
  | _ => None
  end.

(** The sessions whose cleanup throws when [c] disconnects: those [c]
    controls whose [pdfUrl] is no string, or resolves to a directory. *)
Definition cleanup_throws (c : conn) (s : session) : bool :=
  bool_decide (admin s = c) && bool_decide (blob_of s = None).

(** The [unlinkSync] call a throwing cleanup gets to make. *)
Definition failing_request (s : session) : list effect :=
  match pdfUrl s with
  | JStr url => [Unlink (filePath (basename url))]
  | _ => []
  end.

(** What a completed traversal makes of the table: the sessions of [c] are
    gone, [c] is no viewer of the others. *)
Definition reconcile (c : conn) (st : store) : store :=
  omap (λ ks, if decide (admin (snd ks) = c) then None
              else Some (fst ks, remove_viewer c (snd ks))) st.

(** The part of the table a traversal does not get through: nothing, or a
    part that starts with a session whose cleanup throws. *)
Definition stops_at (c : conn) (tail : store) : Prop :=
  match tail with
  | [] => True
  | (k, s) :: _ => cleanup_throws c s = true
  end.

Definition failing_head (tail : store) : list effect :=
  match tail with
  | [] => []
  | (k, s) :: _ => failing_request s
  end.

Definition nonempty (tail : store) : bool :=
  match tail with
  | [] => false
  | _ :: _ => true
  end.

(** C3 as the specification has it: whatever fails, every session the
    closing connection controls is out of the table afterwards. *)
Definition cleanup_survives_failure (c : conn) (sv : server) : Prop :=
  ∀ k s, own k (sessions sv) = Some s → admin s = c →
    own k (sessions (disconnect c sv).1) = None.

(** C4 as the specification has it: when [c] disconnects, every session it
    controls is out of the table afterwards and its uploaded file, if it
    was there, has been handed to [unlinkSync]. *)
Definition controller_disconnect_tears_down (c : conn) (sv : server) : Prop :=
  ∀ k s, own k (sessions sv) = Some s → admin s = c →
    get (sessions (disconnect c sv).1) k = Undefined
    ∧ ∀ n, blob_of s = Some n → n ∈ uploads sv →
        Unlink (UploadEntry n) ∈ (disconnect c sv).2.

(** C9 as the specification has it: when [c] disconnects, every session it
    does not control loses [c] as a viewer and is otherwise as before. *)
Definition disconnect_removes_viewer (c : conn) (sv : server) : Prop :=
  ∀ k s, own k (sessions sv) = Some s → admin s ≠ c →
    own k (sessions (disconnect c sv).1) = Some (remove_viewer c s).

(** ** Concrete states *)

(** Two session ids as [uuidv4()] returns them, two socket ids, and an
    uploaded document with its URL. *)
Definition S1 : string := "3b241101-e2bb-4255-8caf-4136c566a962".
Definition S2 : string := "9c5b94b1-35ad-49bb-b118-8e8fc24abf80".
Definition connA : conn := "kXvM3T0uYcQ1mAAB".
Definition connB : conn := "Zr8w2LpQe5NfoAAD".
Definition docfile : string := "pdf-1700000000000.pdf".
Definition doc : jsval := JStr "/uploads/pdf-1700000000000.pdf".

(** The scenario of the specification: connection A creates a session, B
    joins it, A turns to page 5. *)
Definition shared_session : server :=
  run [CreateSession connA S1 0 doc; JoinSession connB S1;
       PageChange connA S1 (JNum 5)]
    (start {[ docfile ]}).

(** Two connections with a session each, created a millisecond apart. *)
Definition two_sessions : server :=
  run [CreateSession connA S1 0 doc; CreateSession connB S2 1 doc]
    (start {[ docfile ]}).

(** A controller with two sessions; the [pdfUrl] of the first one resolves
    to the uploads directory itself, which [unlinkSync] refuses. *)
Definition unlink_fails : server :=
  run [CreateSession connA S1 0 (JStr "."); CreateSession connA S2 1 doc]
    (start {[ docfile ]}).

(** A controller with two sessions, the first created with [null] for a
    [pdfUrl]; a viewer has joined the second. *)
Definition no_url_first : server :=
  run [CreateSession connA S1 0 JNull; CreateSession connA S2 1 doc;
       JoinSession connB S2]
    (start {[ docfile ]}).

(** A views the session of B, and before that created one of its own whose
    [pdfUrl] resolves to the parent of the uploads directory. *)
Definition viewer_with_bad_session : server :=
  run [CreateSession connA S1 0 (JStr "/uploads/.."); CreateSession connB S2 1 doc;
       JoinSession connA S2]
    (start {[ docfile ]}).

(** ** Uploads, senders and re-creation *)

(** The characters of a stored file name. *)
Definition filename_char (a : ascii) : bool :=
  is_alnum a || bool_decide (a = "-"%char) || bool_decide (a = "."%char).

(** The URLs the upload endpoint hands out. *)
Definition uploaded_url (v : jsval) : Prop :=
  ∃ fieldname now, v = JStr ("/uploads/" +:+ filename fieldname now).

(** The connection whose request an event is. *)
Definition sender (e : event) : option conn :=
  match e with
  | CreateSession c _ _ _ | JoinSession c _ | PageChange c _ _ => Some c
  | Disconnect _ | Sweep _ | Upload _ => None
  end.


(** A [create-session] for which [uuidv4()] returned [k]. *)
Definition creates (k : string) (e : event) : bool :=
  match e with
  | CreateSession _ k' _ _ => bool_decide (k' = k)
  | _ => false
  end.

(** * Properties *)

(** ** Paths *)
Example basename_tests :
  basename "/uploads/doc.pdf" = "doc.pdf" ∧ basename "/uploads/" = "uploads"
  ∧ basename "." = "." ∧ basename "" = "" ∧ basename "//" = "" ∧ basename "a/b//" = "b".
Proof. vm_compute. repeat split. Qed.

Lemma upto_slash_no_slash l : slash ∉ upto_slash l.
Proof.
  induction l as [|a l IH]; simpl; [apply not_elem_of_nil|].
  case_decide; [apply not_elem_of_nil|].
  apply not_elem_of_cons. split; [congruence | exact IH].
Qed.

(** No slash is left in a basename, which is what lets [filePath] stand for
    the join. *)
Lemma basename_no_slash p : slash ∉ String.list_ascii_of_string (basename p).
Proof.
  unfold basename. rewrite String.list_ascii_of_string_of_list_ascii.
  intros H. apply list_elem_of_In, in_rev, list_elem_of_In in H.
  by apply upto_slash_no_slash in H.
Qed.

(** ** The table *)
Section Store.
Implicit Types (k : string) (s : session) (st : store).

Lemma own_None k st : own k st = None ↔ k ∉ keys st.
Proof.
  induction st as [|[k' s'] st IH]; simpl.
  - split; [intros _; apply not_elem_of_nil | done].
  - case_decide; subst.
    + split; [done | intros []; apply elem_of_cons; by left].
    + rewrite IH, not_elem_of_cons.
      split; [intros ?; split; [congruence | done] | by intros [_ ?]].
Qed.

Lemma own_Some_elem k s st : own k st = Some s → (k, s) ∈ st.
Proof.
  induction st as [|[k' s'] st IH]; simpl; [done|].
  case_decide; subst.
  - intros [= ->]. apply elem_of_cons; by left.
  - intros H'. apply elem_of_cons; right; auto.
Qed.

Lemma elem_keys k s st : (k, s) ∈ st → k ∈ keys st.
Proof. intros H. unfold keys. apply list_elem_of_fmap. by exists (k, s). Qed.

Lemma elem_own k s st : NoDup (keys st) → (k, s) ∈ st → own k st = Some s.
Proof.
  induction st as [|[k' s'] st IH]; simpl.
  - intros _ H; by apply elem_of_nil in H.
  - intros [Hk Hnd]%NoDup_cons [H | H]%elem_of_cons.
    + simplify_eq. by rewrite decide_True.
    + rewrite decide_False; [auto|].
      intros ->. apply Hk. eapply elem_keys, H.
Qed.

Lemma own_app_notin k pre rest : k ∉ keys pre → own k (pre ++ rest) = own k rest.
Proof.
  induction pre as [|[k' s'] pre IH]; simpl; [done|].
  intros [Hne Hk]%not_elem_of_cons. rewrite decide_False by done. auto.
Qed.

Lemma store_delete_app_notin k pre rest :
  k ∉ keys pre → store_delete k (pre ++ rest) = pre ++ store_delete k rest.
Proof.
  induction pre as [|[k' s'] pre IH]; simpl; [done|].
  intros [Hne Hk]%not_elem_of_cons. rewrite decide_False by done.
  by rewrite IH.
Qed.

Lemma store_modify_app_notin k f pre rest :
  k ∉ keys pre → store_modify k f (pre ++ rest) = pre ++ store_modify k f rest.
Proof.
  induction pre as [|[k' s'] pre IH]; simpl; [done|].
  intros [Hne Hk]%not_elem_of_cons. rewrite decide_False by done.
  by rewrite IH.
Qed.

Lemma own_store_set k k' s st :
  own k (store_set k' s st) = if decide (k' = k) then Some s else own k st.
Proof.
  induction st as [|[k0 s0] st IH]; simpl.
  - by destruct (decide (k' = k)).
  - destruct (decide (k0 = k')) as [->|Hne]; simpl.
    + by destruct (decide (k' = k)).
    + rewrite IH. destruct (decide (k0 = k)) as [->|?]; [|done].
      by rewrite decide_False by done.
Qed.

Lemma own_store_modify k k' f st :
  own k (store_modify k' f st) = if decide (k' = k) then f <$> own k st else own k st.
Proof.
  induction st as [|[k0 s0] st IH]; simpl.
  - by destruct (decide (k' = k)).
  - destruct (decide (k0 = k')) as [->|Hne]; simpl.
    + by destruct (decide (k' = k)).
    + rewrite IH. destruct (decide (k0 = k)) as [->|?]; [|done].
      by rewrite decide_False by done.
Qed.

Lemma keys_store_modify k f st : keys (store_modify k f st) = keys st.
Proof.
  induction st as [|[k0 s0] st IH]; simpl; [done|].
  case_decide; simpl; by rewrite ?IH.
Qed.

Lemma elem_store_delete k x st : x ∈ store_delete k st → x ∈ st.
Proof.
  induction st as [|[k0 s0] st IH]; simpl; [done|].
  case_decide.
  - intros H'. apply elem_of_cons; by right.
  - intros [-> | H']%elem_of_cons; apply elem_of_cons; auto.
Qed.

Lemma keys_store_delete k k' st : k' ∈ keys (store_delete k st) → k' ∈ keys st.
Proof.
  unfold keys. intros ([k0 s0] & -> & H')%list_elem_of_fmap.
  apply list_elem_of_fmap. exists (k0, s0). split; [done|].
  eapply elem_store_delete, H'.
Qed.

Lemma NoDup_store_delete k st : NoDup (keys st) → NoDup (keys (store_delete k st)).
Proof.
  induction st as [|[k0 s0] st IH]; simpl; [done|].
  intros [Hk Hnd]%NoDup_cons. case_decide; [done|].
  simpl. apply NoDup_cons. split; [|auto].
  intros H'. apply Hk. eapply keys_store_delete, H'.
Qed.

Lemma keys_store_set k s st :
  keys (store_set k s st) = if own k st is Some _ then keys st else keys st ++ [k].
Proof.
  induction st as [|[k0 s0] st IH]; simpl; [done|].
  case_decide; simpl; [done|]. rewrite IH. by destruct (own k st).
Qed.

Lemma NoDup_store_set k s st : NoDup (keys st) → NoDup (keys (store_set k s st)).
Proof.
  intros Hnd. rewrite keys_store_set.
  destruct (own k st) eqn:E; [done|].
  apply NoDup_app. split; [done|]. split.
  - intros x Hx [->|[]%elem_of_nil]%elem_of_cons. by apply own_None in E.
  - apply NoDup_singleton.
Qed.

Lemma own_store_delete_eq k st : NoDup (keys st) → own k (store_delete k st) = None.
Proof.
  induction st as [|[k0 s0] st IH]; simpl; [done|].
  intros [Hk Hnd]%NoDup_cons. case_decide; subst.
  - by apply own_None.
  - simpl. rewrite decide_False by done. auto.
Qed.

Lemma own_store_delete_ne k k' st : k ≠ k' → own k (store_delete k' st) = own k st.
Proof.
  intros Hne. induction st as [|[k0 s0] st IH]; simpl; [done|].
  destruct (decide (k0 = k')) as [->|?]; simpl.
  - by rewrite decide_False by done.
  - by rewrite IH.
Qed.
End Store.

(** ** Invariants of the session records

    A property of single session records that holds of a fresh record and
    survives the three ways a handler changes a record, holds of every
    record in every state a run reaches. *)
Section SessionInvariant.
Variable P : session → Prop.
Variable ok : event → server → bool.
Hypothesis P_create : ∀ c url now, P (mkSession c ∅ (JNum 1) url now).
Hypothesis P_leave : ∀ c s, P s → P (remove_viewer c s).
Hypothesis P_join : ∀ c k sv s,
  ok (JoinSession c k) sv = true → own k (sessions sv) = Some s →
  P s → P (add_viewer c s).
Hypothesis P_page : ∀ c k page sv s,
  ok (PageChange c k page) sv = true → own k (sessions sv) = Some s →
  admin s = c → P s → P (set_currentPage page s).

Lemma every_store_set k s st :
  P s → every_session P st → every_session P (store_set k s st).
Proof.
  intros Hs. induction st as [|[k0 s0] st IH]; simpl; intros H.
  - by repeat constructor.
  - apply Forall_cons in H as [H0 H].
    case_decide; constructor; simpl; auto. by apply IH.
Qed.

Lemma every_store_modify k f st :
  (∀ s, own k st = Some s → P s → P (f s)) →
  every_session P st → every_session P (store_modify k f st).
Proof.
  induction st as [|[k0 s0] st IH]; simpl; intros Hf H; [done|].
  apply Forall_cons in H as [H0 H]. rewrite decide_bool_decide in Hf.
  case_decide; subst.
  - rewrite bool_decide_eq_true_2 in Hf by done. constructor; simpl; auto.
  - rewrite bool_decide_eq_false_2 in Hf by done. constructor; simpl; auto.
    by apply IH.
Qed.

Lemma every_store_delete k st :
  every_session P st → every_session P (store_delete k st).
Proof.
  unfold every_session. rewrite !Forall_forall.
  intros H x Hx. eapply H, elem_store_delete, Hx.
Qed.

Lemma every_cleanup_session c k s sv :
  every_session P (sessions sv) →
  every_session P (sessions (cleanup_session c k s sv).1.1).
Proof.
  intros H. unfold cleanup_session.
  repeat (case_match; simpl); auto using every_store_delete.
  apply every_store_modify; auto.
Qed.

Lemma every_disconnect_loop c ks : ∀ sv,
  every_session P (sessions sv) →
  every_session P (sessions (disconnect_loop c ks sv).1.1).
Proof.
  induction ks as [|k ks IH]; simpl; intros sv H; [done|].
  destruct (own k (sessions sv)) as [s|]; [|auto].
  pose proof (every_cleanup_session c k s sv H) as H1.
  destruct (cleanup_session c k s sv) as [[sv1 e1] [|]]; simpl in *; [done|].
  specialize (IH sv1 H1).
  by destruct (disconnect_loop c ks sv1) as [[sv2 e2] t2].
Qed.

Lemma every_sweep_loop now ks : ∀ st,
  every_session P st → every_session P (sweep_loop now ks st).
Proof.
  induction ks as [|k ks IH]; simpl; intros st H; [done|].
  destruct (own k st) as [s|]; [|auto].
  apply IH. destruct (expired now s); auto using every_store_delete.
Qed.

Lemma every_step e sv :
  ok e sv = true →
  every_session P (sessions sv) → every_session P (sessions (step e sv).1).
Proof.
  intros Hok H. destruct e as [c k now url|c k|c k page|c|now|f]; simpl.
  - by apply every_store_set.
  - unfold join_session, get.
    destruct (own k (sessions sv)) as [s|] eqn:E; simpl.
    + apply every_store_modify; [|done].
      intros s' Hs'. assert (s' = s) as -> by congruence. eauto.
    + by destruct (inherited k).
  - unfold page_change, get.
    destruct (own k (sessions sv)) as [s|] eqn:E; simpl.
    + case_decide; simpl; [|done].
      apply every_store_modify; [|done].
      intros s' Hs'. assert (s' = s) as -> by congruence. eauto.
    + by destruct (inherited k).
  - unfold disconnect.
    pose proof (every_disconnect_loop c (keys (sessions (socket_leave_all c sv)))
                  (socket_leave_all c sv) H) as H1.
    by destruct (disconnect_loop _ _ _) as [[sv1 e1] t1].
  - by apply every_sweep_loop.
  - done.
Qed.

Lemma every_run es : ∀ sv,
  along ok es sv = true →
  every_session P (sessions sv) → every_session P (sessions (run es sv)).
Proof.
  induction es as [|e es IH]; simpl; intros sv Hok H; [done|].
  apply andb_true_iff in Hok as [Hok1 Hok2].
  apply IH; [done|]. by apply every_step.
Qed.

Lemma every_own st k s : every_session P st → own k st = Some s → P s.
Proof.
  unfold every_session. rewrite Forall_forall. intros H Hs.
  apply (H (k, s)). by apply own_Some_elem.
Qed.
End SessionInvariant.

(** ** Own keys stay distinct *)

Lemma wf_cleanup_session c k s sv : wf sv → wf (cleanup_session c k s sv).1.1.
Proof.
  unfold wf, cleanup_session. intros H.
  repeat (case_match; simpl); auto using NoDup_store_delete.
  by rewrite keys_store_modify.
Qed.

Lemma wf_disconnect_loop c ks : ∀ sv, wf sv → wf (disconnect_loop c ks sv).1.1.
Proof.
  induction ks as [|k ks IH]; simpl; intros sv H; [done|].
  destruct (own k (sessions sv)) as [s|]; [|auto].
  pose proof (wf_cleanup_session c k s sv H) as H1.
  destruct (cleanup_session c k s sv) as [[sv1 e1] [|]]; simpl in *; [done|].
  specialize (IH sv1 H1).
  by destruct (disconnect_loop c ks sv1) as [[sv2 e2] t2].
Qed.

Lemma NoDup_sweep_loop now ks : ∀ st,
  NoDup (keys st) → NoDup (keys (sweep_loop now ks st)).
Proof.
  induction ks as [|k ks IH]; simpl; intros st H; [done|].
  destruct (own k st) as [s|]; [|auto].
  apply IH. destruct (expired now s); auto using NoDup_store_delete.
Qed.

Lemma wf_step e sv : wf sv → wf (step e sv).1.
Proof.
  unfold wf. intros H.
  destruct e as [c k now url|c k|c k page|c|now|f]; simpl.
  - by apply NoDup_store_set.
  - unfold join_session, get.
    destruct (own k (sessions sv)) as [s|]; simpl.
    + by rewrite keys_store_modify.
    + by destruct (inherited k).
  - unfold page_change, get.
    destruct (own k (sessions sv)) as [s|]; simpl.
    + case_decide; simpl; [|done]. by rewrite keys_store_modify.
    + by destruct (inherited k).
  - unfold disconnect.
    pose proof (wf_disconnect_loop c (keys (sessions (socket_leave_all c sv)))
                  (socket_leave_all c sv) H) as H1.
    by destruct (disconnect_loop _ _ _) as [[sv1 e1] t1].
  - by apply NoDup_sweep_loop.
  - done.
Qed.

Lemma wf_run es : ∀ sv, wf sv → wf (run es sv).
Proof.
  induction es as [|e es IH]; simpl; intros sv H; [done|].
  by apply IH, wf_step.
Qed.

Lemma wf_start files : wf (start files).
Proof. constructor. Qed.

(** Every state a run reaches from start-up has distinct keys. *)
Lemma wf_reachable files es : wf (run es (start files)).
Proof. apply wf_run, wf_start. Qed.

(** ** The controller among the viewers *)

(** C2, as stated, fails: a controller that sends [join-session] for its own
    session is added to the viewers of that session (line 105 has no check
    of the sender against [admin]). *)
Lemma controller_joins_own_session :
  ¬ viewers_exclude_controller
      (run [CreateSession connA S1 0 doc; JoinSession connA S1] (start {[ docfile ]})).
Proof.
  intros H.
  apply (H S1 (mkSession connA {[ connA ]} (JNum 1) doc 0)).
  - vm_compute. reflexivity.
  - simpl. by apply elem_of_singleton.
Qed.

(** C2, amended: along every sequence of create, join, page-change,
    disconnect, sweep and upload events in which no connection joins a
    session it controls, no session has its controller among its viewers. *)
Theorem viewers_exclude_controller_run (files : gset string) (es : list event) :
  along no_self_join es (start files) = true →
  viewers_exclude_controller (run es (start files)).
Proof.
  intros Hok k s Hs.
  eapply (every_own (λ s, admin s ∉ viewers s)); [|exact Hs].
  eapply (every_run _ no_self_join); [..|exact Hok|by constructor].
  - intros c url now. simpl. apply not_elem_of_empty.
  - intros c s0 H0. simpl. rewrite elem_of_difference. tauto.
  - intros c k0 sv s0 Hj Hown H0. simpl.
    unfold no_self_join, self_join in Hj. rewrite Hown in Hj.
    apply negb_true_iff, bool_decide_eq_false in Hj.
    rewrite elem_of_union, elem_of_singleton. tauto.
  - intros c k0 page sv s0 _ _ _ H0. exact H0.
Qed.

Lemma viewers_exclude_controller_run_witness :
  viewers_exclude_controller
    (run [CreateSession connA S1 0 doc; JoinSession connB S1;
          PageChange connA S1 (JNum 5); Disconnect connB]
       (start {[ docfile ]})).
Proof.
  apply (viewers_exclude_controller_run {[ docfile ]}).
  vm_compute. reflexivity.
Defined.

(** C7, as stated, fails: the handler stores whatever [pageNumber] the
    controller sends (line 128), zero included. *)
Lemma controller_sets_page_zero :
  ¬ currentPage_positive
      (run [CreateSession connA S1 0 doc; PageChange connA S1 (JNum 0)]
         (start {[ docfile ]})).
Proof.
  intros H.
  specialize (H S1 (mkSession connA ∅ (JNum 0) doc 0)).
  discriminate H. vm_compute. reflexivity.
Qed.

(** C7, amended: [currentPage] is 1 in a session just created, and it is a
    positive integer in every session of every state reached by a sequence
    of events in which each [page-change] the handler accepts carries a
    positive integer; the handler itself stores [pageNumber] unchecked. *)
Theorem currentPage_positive_run (files : gset string) (es : list event)
    (c : conn) (k : string) (now : Z) (url : jsval) :
  along page_ok es (start files) = true →
  currentPage_positive (run es (start files)) ∧
  ∃ s, own k (sessions (create_session c k now url (run es (start files))).1) = Some s
       ∧ currentPage s = JNum 1.
Proof.
  intros Hok. split.
  - intros k0 s Hs.
    eapply (every_own (λ s, is_positive_integer (currentPage s) = true)); [|exact Hs].
    eapply (every_run _ page_ok); [..|exact Hok|by constructor].
    + done.
    + done.
    + intros ? ? ? ? _ _ H0. exact H0.
    + intros c0 k1 page sv s0 Hp Hown Hadm _. simpl.
      unfold page_ok in Hp. rewrite Hown in Hp.
      by rewrite decide_True in Hp.
  - eexists. split.
    + simpl. rewrite own_store_set. by rewrite decide_True.
    + reflexivity.
Qed.

Lemma currentPage_positive_run_witness :
  currentPage_positive
    (run [CreateSession connA S1 0 doc; JoinSession connB S1;
          PageChange connA S1 (JNum 5); PageChange connB S1 (JNum 0)]
       (start {[ docfile ]})).
Proof.
  apply (currentPage_positive_run {[ docfile ]} _ connA S2 0 doc).
  vm_compute. reflexivity.
Defined.

(** ** Expiry sweep *)

Lemma expired_spec now s : expired now s = true ↔ now - createdAt s > DAY.
Proof. unfold expired. rewrite Z.gtb_gt. lia. Qed.

Lemma NoDup_keys_app_cons pre k s rest :
  NoDup (keys (pre ++ (k, s) :: rest)) →
  (k ∉ keys pre) ∧ NoDup (keys (pre ++ rest))
  ∧ NoDup (keys ((pre ++ [(k, s)]) ++ rest)).
Proof.
  unfold keys. rewrite !fmap_app, !fmap_cons. simpl.
  intros H. split; [|split].
  - apply NoDup_app in H as (_ & H & _). intros Hk. apply (H _ Hk), elem_of_cons; by left.
  - apply NoDup_app in H as (H1 & H2 & H3). apply NoDup_cons in H3 as [_ H3].
    apply NoDup_app. split; [done|]. split; [|done].
    intros x Hx Hx'. apply (H2 x Hx), elem_of_cons; by right.
  - by rewrite <- app_assoc.
Qed.

(** The loop over the keys computes a filter. *)
Lemma sweep_loop_zip now : ∀ rest pre,
  NoDup (keys (pre ++ rest)) →
  sweep_loop now (keys rest) (pre ++ rest) = pre ++ filter (fresh now) rest.
Proof.
  induction rest as [|[k s] rest IH]; intros pre Hnd; simpl; [done|].
  apply NoDup_keys_app_cons in Hnd as (Hk & Hdel & Hkeep).
  rewrite own_app_notin by done. simpl. rewrite decide_True by done.
  destruct (expired now s) eqn:E.
  - rewrite store_delete_app_notin by done. simpl. rewrite decide_True by done.
    rewrite IH by done. rewrite filter_cons_False; [done|].
    unfold fresh. simpl. apply expired_spec in E. lia.
  - replace (pre ++ (k, s) :: rest) with ((pre ++ [(k, s)]) ++ rest)
      by (by rewrite <- app_assoc).
    rewrite IH by done. rewrite filter_cons_True.
    + by rewrite <- app_assoc.
    + unfold fresh. simpl. apply Z.nlt_ge. intros Hlt.
      assert (expired now s = true) by (apply expired_spec; lia). congruence.
Qed.

Lemma own_filter (P : string * session → Prop) `{∀ x, Decision (P x)} k st :
  NoDup (keys st) →
  own k (filter P st) =
    match own k st with
    | Some s => if decide (P (k, s)) then Some s else None
    | None => None
    end.
Proof.
  induction st as [|[k0 s0] st IH]; simpl; [done|].
  intros [Hk Hnd]%NoDup_cons.
  destruct (decide (k0 = k)) as [->|Hne].
  - destruct (decide (P (k, s0))).
    + rewrite filter_cons_True by done. simpl. by rewrite decide_True.
    + rewrite filter_cons_False by done. rewrite IH by done.
      apply own_None in Hk. by rewrite Hk.
  - destruct (decide (P (k0, s0))).
    + rewrite filter_cons_True by done. simpl. rewrite decide_False by done. auto.
    + rewrite filter_cons_False by done. auto.
Qed.

(** The table after the sweep, as a filter and by lookups. *)
Lemma sweep_sessions now sv :
  wf sv → sessions (sweep now sv).1 = filter (fresh now) (sessions sv).
Proof. intros Hwf. exact (sweep_loop_zip now (sessions sv) [] Hwf). Qed.

Lemma sweep_lookup now sv k :
  wf sv →
  own k (sessions (sweep now sv).1) =
    match own k (sessions sv) with
    | Some s => if decide (now - createdAt s ≤ DAY) then Some s else None
    | None => None
    end.
Proof.
  intros Hwf. rewrite sweep_sessions by done. rewrite own_filter by done.
  by destruct (own k (sessions sv)).
Qed.

(** C5: a run of the sweep at time [now] removes the sessions with
    [now - createdAt > 24h] and no other, keeps the remaining sessions as
    they were and in their order, and touches nothing else; a session aged
    exactly 24 hours stays. *)
Theorem sweep_removes_exactly_expired (now : Z) (sv : server) :
  wf sv →
  let sv' := (sweep now sv).1 in
  sessions sv' = filter (fresh now) (sessions sv) ∧
  (∀ k s, own k (sessions sv) = Some s →
     (now - createdAt s > 24 * 60 * 60 * 1000 → own k (sessions sv') = None) ∧
     (now - createdAt s ≤ 24 * 60 * 60 * 1000 → own k (sessions sv') = Some s) ∧
     (now - createdAt s = 24 * 60 * 60 * 1000 → own k (sessions sv') = Some s)) ∧
  (∀ k, own k (sessions sv) = None → own k (sessions sv') = None) ∧
  rooms sv' = rooms sv ∧ uploads sv' = uploads sv.
Proof.
  intros Hwf sv'. split; [by apply sweep_sessions|].
  split; [|split; [|done]].
  - intros k s Hs. unfold sv'. rewrite sweep_lookup by done. rewrite Hs.
    unfold DAY. repeat split; intros; case_decide; (done || lia).
  - intros k Hk. unfold sv'. rewrite sweep_lookup by done. by rewrite Hk.
Qed.

Lemma sweep_removes_exactly_expired_witness :
  wf two_sessions ∧
  keys (sessions (sweep (24 * 60 * 60 * 1000 + 1) two_sessions).1) = [S2].
Proof.
  assert (wf two_sessions) as Hwf.
  { apply (bool_decide_unpack _). vm_compute. exact I. }
  split; [exact Hwf|].
  destruct (sweep_removes_exactly_expired (24 * 60 * 60 * 1000 + 1) two_sessions Hwf)
    as [H _].
  rewrite H. vm_compute. reflexivity.
Defined.

(** ** Disconnect reconciliation *)

Lemma cleanup_session_viewer c k s sv :
  admin s ≠ c →
  cleanup_session c k s sv =
    (with_sessions (store_modify k (remove_viewer c) (sessions sv)) sv, [], false).
Proof. intros H. unfold cleanup_session. by rewrite decide_False. Qed.

Lemma cleanup_session_throws c k s sv :
  cleanup_throws c s = true →
  cleanup_session c k s sv = (sv, failing_request s, true).
Proof.
  unfold cleanup_throws, cleanup_session, blob_of, failing_request.
  intros [Hc Hb]%andb_true_iff.
  apply bool_decide_eq_true in Hc. apply bool_decide_eq_true in Hb.
  rewrite decide_True by done.
  destruct (pdfUrl s) as [z|url|]; try done.
  by destruct (filePath (basename url)).
Qed.

Lemma cleanup_session_controller c k s sv n :
  admin s = c → blob_of s = Some n →
  cleanup_session c k s sv =
    (mkServer (store_delete k (sessions sv)) (rooms sv) (uploads sv ∖ {[ n ]}),
     if bool_decide (n ∈ uploads sv) then [Unlink (UploadEntry n)] else [],
     false).
Proof.
  unfold cleanup_session, blob_of. intros Hc Hb.
  rewrite decide_True by done.
  destruct (pdfUrl s) as [z|url|]; try done.
  destruct (filePath (basename url)) as [| |n'] eqn:E; try done.
  simplify_eq. simpl.
  destruct (bool_decide (n ∈ uploads sv)) eqn:Hn; [done|].
  apply bool_decide_eq_false in Hn. unfold with_sessions.
  do 2 f_equal. f_equal. apply set_eq. intros x.
  rewrite elem_of_difference, elem_of_singleton.
  split; [|tauto]. intros Hx. split; [done|]. by intros ->.
Qed.

Lemma disconnect_loop_zip c : ∀ done pre tail rm up,
  NoDup (keys (pre ++ done ++ tail)) →
  Forall (λ ks, cleanup_throws c (snd ks) = false) done →
  stops_at c tail →
  ∃ up' e,
    disconnect_loop c (keys (done ++ tail)) (mkServer (pre ++ done ++ tail) rm up)
      = (mkServer (pre ++ reconcile c done ++ tail) rm up',
         e ++ failing_head tail, nonempty tail)
    ∧ up' ⊆ up
    ∧ (∀ n, n ∈ up → n ∉ up' → Unlink (UploadEntry n) ∈ e)
    ∧ (∀ k s n, (k, s) ∈ done → admin s = c → blob_of s = Some n → n ∉ up')
    ∧ (∀ x, x ∈ e → ∃ n, x = Unlink (UploadEntry n) ∧ n ∈ up).
Proof.
  induction done as [|[k s] done IH]; intros pre tail rm up Hnd Hok Hstop.
  - exists up, []. split; [|split; [done|split; [done|split]]].
    + destruct tail as [|[k s] tail]; simpl; [done|].
      simpl in Hnd. apply NoDup_keys_app_cons in Hnd as (Hk & _ & _).
      rewrite own_app_notin by done. simpl. rewrite decide_True by done.
      simpl in Hstop. by rewrite cleanup_session_throws.
    + intros k s n H. by apply elem_of_nil in H.
    + intros x H. by apply elem_of_nil in H.
  - apply Forall_cons in Hok as [Hs Hok]. simpl in Hs.
    simpl in Hnd. pose proof Hnd as Hnd0.
    apply NoDup_keys_app_cons in Hnd as (Hk & Hdel & Hkeep).
    destruct (decide (admin s = c)) as [Hc|Hc].
    + destruct (blob_of s) as [n|] eqn:Hb.
      2:{ unfold cleanup_throws in Hs. rewrite Hb in Hs.
          rewrite !bool_decide_eq_true_2 in Hs by done. done. }
      destruct (IH pre tail rm (up ∖ {[ n ]}) Hdel Hok Hstop)
        as (up' & e & Hloop & Hsub & Hgone & Hblob & Hreq).
      exists up', ((if bool_decide (n ∈ up) then [Unlink (UploadEntry n)] else []) ++ e).
      split; [|split; [|split; [|split]]].
      * simpl. rewrite own_app_notin by done. simpl. rewrite decide_True by done.
        rewrite (cleanup_session_controller c k s _ n) by done. simpl.
        rewrite store_delete_app_notin by done. simpl. rewrite decide_True by done.
        rewrite Hloop. unfold reconcile. simpl. rewrite decide_True by done.
        by rewrite <- app_assoc.
      * intros x Hx. apply Hsub, elem_of_difference in Hx. tauto.
      * intros n' Hn' Hn''. apply elem_of_app.
        destruct (decide (n' = n)) as [->|Hne].
        -- left. rewrite bool_decide_eq_true_2 by done. by apply list_elem_of_singleton.
        -- right. apply Hgone; [|done].
           apply elem_of_difference. by rewrite elem_of_singleton.
      * intros k0 s0 n0 [H0|H0]%elem_of_cons Hc0 Hb0.
        -- simplify_eq. intros Hn. apply Hsub, elem_of_difference in Hn as [_ Hn].
           by apply Hn, elem_of_singleton.
        -- eapply Hblob; eauto.
      * intros x [Hx|Hx]%elem_of_app.
        -- case_bool_decide; [|by apply elem_of_nil in Hx].
           apply list_elem_of_singleton in Hx as ->. eauto.
        -- destruct (Hreq x Hx) as (n0 & -> & Hn0). exists n0. split; [done|].
           by apply elem_of_difference in Hn0 as [? _].
    + destruct (IH (pre ++ [(k, remove_viewer c s)]) tail rm up) as
        (up' & e & Hloop & Hsub & Hgone & Hblob & Hreq); [|done|done|].
      { destruct (NoDup_keys_app_cons pre k (remove_viewer c s) (done ++ tail))
          as (_ & _ & H'); [|done].
        revert Hnd0. unfold keys. by rewrite !fmap_app, !fmap_cons. }
      exists up', e.
      split; [|split; [done|split; [done|split; [|done]]]].
      * simpl. rewrite own_app_notin by done. simpl. rewrite decide_True by done.
        rewrite cleanup_session_viewer by done. unfold with_sessions. simpl.
        rewrite store_modify_app_notin by done. simpl. rewrite decide_True by done.
        replace (pre ++ (k, remove_viewer c s) :: done ++ tail)
          with ((pre ++ [(k, remove_viewer c s)]) ++ done ++ tail)
          by (by rewrite <- app_assoc).
        rewrite Hloop. unfold reconcile. simpl. rewrite decide_False by done.
        simpl. by rewrite <- app_assoc.
      * intros k0 s0 n0 [H0|H0]%elem_of_cons Hc0 Hb0.
        -- simplify_eq.
        -- eapply Hblob; eauto.
Qed.

Lemma split_at_throw c : ∀ st : store,
  ∃ done tail, st = done ++ tail
    ∧ Forall (λ ks, cleanup_throws c (snd ks) = false) done ∧ stops_at c tail.
Proof.
  induction st as [|[k s] st (done & tail & -> & Hok & Hstop)].
  - by exists [], [].
  - destruct (cleanup_throws c s) eqn:E.
    + by exists [], ((k, s) :: done ++ tail).
    + exists ((k, s) :: done), tail. split; [done|]. split; [|done].
      by constructor.
Qed.

Lemma own_app k (st1 st2 : store) :
  own k (st1 ++ st2) = match own k st1 with Some s => Some s | None => own k st2 end.
Proof.
  induction st1 as [|[k0 s0] st1 IH]; simpl; [done|].
  by case_decide.
Qed.

Lemma own_reconcile c k st :
  NoDup (keys st) →
  own k (reconcile c st) =
    match own k st with
    | Some s => if decide (admin s = c) then None else Some (remove_viewer c s)
    | None => None
    end.
Proof.
  induction st as [|[k0 s0] st IH]; simpl; [done|].
  intros [Hk Hnd]%NoDup_cons. unfold reconcile in *. simpl.
  destruct (decide (k0 = k)) as [->|Hne].
  - destruct (decide (admin s0 = c)); simpl.
    + rewrite IH by done. apply own_None in Hk. by rewrite Hk.
    + by rewrite decide_True.
  - destruct (decide (admin s0 = c)); simpl; [auto|].
    rewrite decide_False by done. auto.
Qed.

(** The whole handler, for a table split at the first session whose
    cleanup throws. *)
Lemma disconnect_split c sv done tail :
  wf sv → sessions sv = done ++ tail →
  Forall (λ ks, cleanup_throws c (snd ks) = false) done → stops_at c tail →
  ∃ up' e,
    disconnect c sv
      = (mkServer (reconcile c done ++ tail) (rooms (socket_leave_all c sv)) up',
         e ++ failing_head tail ++
           (if nonempty tail then [ConsoleError "Error handling disconnect:"] else []))
    ∧ up' ⊆ uploads sv
    ∧ (∀ n, n ∈ uploads sv → n ∉ up' → Unlink (UploadEntry n) ∈ e)
    ∧ (∀ k s n, (k, s) ∈ done → admin s = c → blob_of s = Some n → n ∉ up')
    ∧ (∀ x, x ∈ e → ∃ n, x = Unlink (UploadEntry n) ∧ n ∈ uploads sv).
Proof.
  intros Hwf Hsv Hok Hstop. unfold wf in Hwf. rewrite Hsv in Hwf.
  destruct (disconnect_loop_zip c done [] tail (rooms (socket_leave_all c sv))
              (uploads sv) Hwf Hok Hstop) as (up' & e & Hloop & Hrest).
  exists up', e. split; [|exact Hrest].
  unfold disconnect.
  replace (socket_leave_all c sv)
    with (mkServer ([] ++ done ++ tail) (rooms (socket_leave_all c sv)) (uploads sv))
    by (unfold socket_leave_all; simpl; by rewrite Hsv).
  cbn [sessions]. simpl app at 1. rewrite Hloop. simpl.
  destruct tail; simpl; [by rewrite !app_nil_r | by rewrite <- app_assoc].
Qed.

(** ** What a disconnect leaves behind *)

(** C3, as stated, fails: the throw of [unlinkSync] leaves line 148 unrun
    for the first session and ends the loop before the second. *)
Lemma failed_unlink_keeps_sessions :
  ¬ cleanup_survives_failure connA unlink_fails
  ∧ keys (sessions (disconnect connA unlink_fails).1) = [S1; S2]
  ∧ (disconnect connA unlink_fails).2
      = [Unlink UploadsDir; ConsoleError "Error handling disconnect:"].
Proof.
  split; [|split; vm_compute; reflexivity].
  intros H.
  specialize (H S2 (mkSession connA ∅ (JNum 1) doc 1)).
  discriminate H; vm_compute; reflexivity.
Qed.

(** C3, amended: a failure raised while cleaning up a session the closing
    connection controls is caught at the handler boundary and logged, and
    it ends the traversal: the sessions visited before it are cleaned up,
    the failing session's record and every session after it stay in the
    table as they were. *)
Theorem disconnect_stops_at_failure (c : conn) (sv : server)
    (done todo : store) (k : string) (s : session) :
  wf sv →
  sessions sv = done ++ (k, s) :: todo →
  Forall (λ ks, cleanup_throws c (snd ks) = false) done →
  cleanup_throws c s = true →
  sessions (disconnect c sv).1 = reconcile c done ++ (k, s) :: todo
  ∧ last (disconnect c sv).2 = Some (ConsoleError "Error handling disconnect:").
Proof.
  intros Hwf Hsv Hok Hs.
  destruct (disconnect_split c sv done ((k, s) :: todo) Hwf Hsv Hok Hs)
    as (up' & e & -> & _).
  split; [done|]. simpl. by rewrite !app_assoc, last_snoc.
Qed.

Lemma disconnect_stops_at_failure_witness :
  wf unlink_fails
  ∧ keys (sessions (disconnect connA unlink_fails).1) = [S1; S2].
Proof.
  assert (wf unlink_fails) as Hwf.
  { apply (bool_decide_unpack _). vm_compute. exact I. }
  split; [exact Hwf|].
  destruct (disconnect_stops_at_failure connA unlink_fails []
              [(S2, mkSession connA ∅ (JNum 1) doc 1)] S1
              (mkSession connA ∅ (JNum 1) (JStr ".") 0) Hwf) as [H _].
  - vm_compute. reflexivity.
  - constructor.
  - vm_compute. reflexivity.
  - rewrite H. vm_compute. reflexivity.
Defined.

(** C4, as stated, fails: [path.basename] throws on the first session, so
    the second one is never reached; its record and its file stay. *)
Lemma session_outlives_controller :
  ¬ controller_disconnect_tears_down connA no_url_first
  ∧ (∃ s, get (sessions (disconnect connA no_url_first).1) S2 = Own s)
  ∧ (disconnect connA no_url_first).2 = [ConsoleError "Error handling disconnect:"]
  ∧ docfile ∈ uploads (disconnect connA no_url_first).1.
Proof.
  split; [|split; [|split]].
  - intros H.
    destruct (H S2 (mkSession connA {[ connB ]} (JNum 1) doc 1)) as [H' _].
    + vm_compute. reflexivity.
    + reflexivity.
    + vm_compute in H'. discriminate H'.
  - eexists. vm_compute. reflexivity.
  - vm_compute. reflexivity.
  - apply (bool_decide_unpack _). vm_compute. exact I.
Qed.

(** Where a session of the visited part ends up. *)
Lemma own_after_disconnect c sv done tail k s :
  wf sv → sessions sv = done ++ tail →
  Forall (λ ks, cleanup_throws c (snd ks) = false) done →
  (k, s) ∈ done →
  own k (sessions (disconnect c sv).1) =
    if decide (admin s = c) then None else Some (remove_viewer c s).
Proof.
  intros Hwf Hsv Hok Hks.
  destruct (split_at_throw c tail) as (done2 & tail2 & -> & Hok2 & Hstop).
  rewrite app_assoc in Hsv.
  destruct (disconnect_split c sv (done ++ done2) tail2 Hwf Hsv
              (proj2 (Forall_app _ _ _) (conj Hok Hok2)) Hstop)
    as (up' & e & -> & _).
  unfold wf in Hwf. rewrite Hsv in Hwf. unfold keys in Hwf.
  rewrite fmap_app in Hwf. apply NoDup_app in Hwf as (Hnd1 & Hdisj & _).
  assert ((k, s) ∈ done ++ done2) as Hin by (apply elem_of_app; by left).
  simpl. rewrite own_app, own_reconcile by done.
  rewrite (elem_own k s _ Hnd1 Hin).
  case_decide; [|done].
  apply own_None. apply Hdisj. eapply elem_keys, Hin.
Qed.

(** C4, amended: when [c] disconnects and no cleanup fails up to and
    including that of a session [c] controls, that session is out of the
    table afterwards, whoever its viewers are, and its uploaded file is
    gone from the uploads directory, having been handed to [unlinkSync] if
    it was there. *)
Theorem controller_disconnect_removes_session (c : conn) (sv : server)
    (done tail : store) (k : string) (s : session) :
  wf sv →
  sessions sv = done ++ tail →
  Forall (λ ks, cleanup_throws c (snd ks) = false) done →
  (k, s) ∈ done →
  admin s = c →
  own k (sessions (disconnect c sv).1) = None
  ∧ (inherited k = false → get (sessions (disconnect c sv).1) k = Undefined)
  ∧ ∃ n, blob_of s = Some n
      ∧ (n ∉ uploads (disconnect c sv).1)
      ∧ (n ∈ uploads sv → Unlink (UploadEntry n) ∈ (disconnect c sv).2).
Proof.
  intros Hwf Hsv Hok Hks Hc.
  pose proof (own_after_disconnect c sv done tail k s Hwf Hsv Hok Hks) as Hown.
  rewrite decide_True in Hown by done.
  split; [done|]. split.
  { intros Hi. unfold get. by rewrite Hown, Hi. }
  destruct (blob_of s) as [n|] eqn:Hb.
  2:{ rewrite Forall_forall in Hok. specialize (Hok _ Hks).
      unfold cleanup_throws in Hok. simpl in Hok. rewrite Hb in Hok.
      by rewrite !bool_decide_eq_true_2 in Hok. }
  exists n. split; [done|].
  destruct (split_at_throw c tail) as (done2 & tail2 & -> & Hok2 & Hstop).
  rewrite app_assoc in Hsv.
  destruct (disconnect_split c sv (done ++ done2) tail2 Hwf Hsv
              (proj2 (Forall_app _ _ _) (conj Hok Hok2)) Hstop)
    as (up' & e & -> & _ & Hgone & Hblob & _).
  assert ((k, s) ∈ done ++ done2) as Hin by (apply elem_of_app; by left).
  simpl. split.
  - by eapply Hblob.
  - intros Hn. apply elem_of_app. left. apply Hgone; [done|]. by eapply Hblob.
Qed.

Lemma controller_disconnect_removes_session_witness :
  wf shared_session
  ∧ own S1 (sessions (disconnect connA shared_session).1) = None.
Proof.
  assert (wf shared_session) as Hwf.
  { apply (bool_decide_unpack _). vm_compute. exact I. }
  split; [exact Hwf|].
  apply (controller_disconnect_removes_session connA shared_session
           [(S1, mkSession connA {[ connB ]} (JNum 5) doc 0)] [] S1
           (mkSession connA {[ connB ]} (JNum 5) doc 0) Hwf).
  - vm_compute. reflexivity.
  - repeat constructor.
  - apply elem_of_cons. by left.
  - reflexivity.
Defined.

(** C9, as stated, fails: the cleanup of A's own session throws first, and
    A stays among the viewers of B's session. *)
Lemma viewer_stays_after_disconnect :
  ¬ disconnect_removes_viewer connA viewer_with_bad_session
  ∧ ∃ s, own S2 (sessions (disconnect connA viewer_with_bad_session).1) = Some s
         ∧ connA ∈ viewers s.
Proof.
  split.
  - intros H.
    specialize (H S2 (mkSession connB {[ connA ]} (JNum 1) doc 1)).
    assert (∀ a b : session, Some a = Some b → viewers a = viewers b) as Hv
      by (by intros a b [= ->]).
    apply Hv in H; [|vm_compute; reflexivity|by vm_compute].
    vm_compute in H. discriminate H.
  - exists (mkSession connB {[ connA ]} (JNum 1) doc 1). split.
    + vm_compute. reflexivity.
    + simpl. by apply elem_of_singleton.
Qed.

(** C9, amended: when [c] disconnects and no cleanup fails up to a session
    that [c] does not control, that session stays in the table with [c]
    taken out of its viewers; its controller, page, document and creation
    time, and its other viewers, are as before. *)
Theorem disconnect_viewer_frame (c : conn) (sv : server)
    (done tail : store) (k : string) (s : session) :
  wf sv →
  sessions sv = done ++ tail →
  Forall (λ ks, cleanup_throws c (snd ks) = false) done →
  (k, s) ∈ done →
  admin s ≠ c →
  ∃ s', own k (sessions (disconnect c sv).1) = Some s'
    ∧ admin s' = admin s ∧ currentPage s' = currentPage s
    ∧ pdfUrl s' = pdfUrl s ∧ createdAt s' = createdAt s
    ∧ viewers s' = viewers s ∖ {[ c ]}
    ∧ (c ∉ viewers s')
    ∧ ∀ v, v ≠ c → v ∈ viewers s' ↔ v ∈ viewers s.
Proof.
  intros Hwf Hsv Hok Hks Hc.
  pose proof (own_after_disconnect c sv done tail k s Hwf Hsv Hok Hks) as Hown.
  rewrite decide_False in Hown by done.
  exists (remove_viewer c s). split; [done|]. simpl.
  repeat split; try done.
  - rewrite elem_of_difference, elem_of_singleton. tauto.
  - rewrite elem_of_difference. tauto.
  - rewrite elem_of_difference, elem_of_singleton. tauto.
Qed.

Lemma disconnect_viewer_frame_witness :
  wf shared_session
  ∧ ∃ s', own S1 (sessions (disconnect connB shared_session).1) = Some s'
          ∧ viewers s' = ({[ connB ]} : gset conn) ∖ {[ connB ]}.
Proof.
  assert (wf shared_session) as Hwf.
  { apply (bool_decide_unpack _). vm_compute. exact I. }
  split; [exact Hwf|].
  destruct (disconnect_viewer_frame connB shared_session
              [(S1, mkSession connA {[ connB ]} (JNum 5) doc 0)] [] S1
              (mkSession connA {[ connB ]} (JNum 5) doc 0) Hwf)
    as (s' & H1 & _ & _ & _ & _ & H2 & _).
  - vm_compute. reflexivity.
  - repeat constructor.
  - apply elem_of_cons. by left.
  - vm_compute. discriminate.
  - exists s'. by split.
Defined.

(** ** Join *)

Lemma store_modify_twice k (f : session → session) (st : store) :
  (∀ s, f (f s) = f s) →
  store_modify k f (store_modify k f st) = store_modify k f st.
Proof.
  intros Hf. induction st as [|[k0 s0] st IH]; simpl; [done|].
  destruct (decide (k0 = k)) as [->|Hne]; simpl.
  - rewrite decide_True by done. by rewrite Hf.
  - rewrite decide_False by done. by rewrite IH.
Qed.

Lemma add_viewer_twice c s : add_viewer c (add_viewer c s) = add_viewer c s.
Proof.
  unfold add_viewer, set_viewers. simpl. f_equal.
  by rewrite (assoc_L (∪)), (idemp_L (∪)).
Qed.

(** C8: joining an existing session a second time with the same connection
    changes nothing: the state after the second join is the state after
    the first, and both joins answer with the same [pdfUrl] and
    [currentPage]. *)
Theorem join_session_idempotent (c : conn) (k : string) (sv : server) (s : session) :
  own k (sessions sv) = Some s →
  join_session c k (join_session c k sv).1
    = ((join_session c k sv).1, (join_session c k sv).2)
  ∧ (join_session c k sv).2 = [Emit c (SessionJoined (pdfUrl s) (currentPage s))].
Proof.
  intros Hs.
  assert (join_session c k sv =
          (with_sessions (store_modify k (add_viewer c) (sessions sv))
             (socket_join c k sv),
           [Emit c (SessionJoined (pdfUrl s) (currentPage s))])) as Hj.
  { unfold join_session, get. by rewrite Hs. }
  rewrite Hj. simpl. split; [|done].
  unfold join_session, get. simpl.
  rewrite own_store_modify, decide_True, Hs by done. simpl.
  unfold with_sessions. simpl.
  rewrite store_modify_twice by apply add_viewer_twice.
  f_equal. unfold room_members. simpl.
  rewrite lookup_insert_eq. simpl. rewrite insert_insert_eq.
  by rewrite (assoc_L (∪)), (idemp_L (∪)).
Qed.

Lemma join_session_idempotent_witness :
  join_session connB S1 (join_session connB S1 shared_session).1
    = ((join_session connB S1 shared_session).1,
       (join_session connB S1 shared_session).2)
  ∧ (join_session connB S1 shared_session).2
    = [Emit connB (SessionJoined doc (JNum 5))].
Proof.
  apply (join_session_idempotent connB S1 shared_session
           (mkSession connA {[ connB ]} (JNum 5) doc 0)).
  vm_compute. reflexivity.
Defined.

(** ** Sweep and the uploaded file *)

(** C10: the sweep removes the record of an expired session and nothing
    else: it calls [unlinkSync] on no path and the uploads directory is as
    before, so the file the session points to is still there if it was;
    the cleanup a controller's disconnect runs on the same session calls
    [unlinkSync] on that file and removes it. *)
Theorem sweep_keeps_uploaded_file (now : Z) (sv : server) (k : string) (s : session)
    (n : string) :
  wf sv →
  own k (sessions sv) = Some s →
  now - createdAt s > 24 * 60 * 60 * 1000 →
  blob_of s = Some n →
  n ∈ uploads sv →
  (own k (sessions (sweep now sv).1) = None
   ∧ (∀ p, Unlink p ∉ (sweep now sv).2)
   ∧ uploads (sweep now sv).1 = uploads sv
   ∧ n ∈ uploads (sweep now sv).1)
  ∧ (Unlink (UploadEntry n) ∈ (cleanup_session (admin s) k s sv).1.2
     ∧ n ∉ uploads (cleanup_session (admin s) k s sv).1.1).
Proof.
  intros Hwf Hs Hage Hb Hn. split.
  - split; [|split; [|split]].
    + rewrite sweep_lookup by done. rewrite Hs.
      rewrite decide_False; [done|]. unfold DAY. lia.
    + intros p Hp. simpl in Hp. by apply elem_of_nil in Hp.
    + done.
    + done.
  - rewrite (cleanup_session_controller _ k s sv n) by done. simpl.
    rewrite bool_decide_eq_true_2 by done. split.
    + by apply list_elem_of_singleton.
    + rewrite elem_of_difference, elem_of_singleton. tauto.
Qed.

Lemma sweep_keeps_uploaded_file_witness :
  wf shared_session
  ∧ own S1 (sessions (sweep (24 * 60 * 60 * 1000 + 1) shared_session).1) = None
  ∧ docfile ∈ uploads (sweep (24 * 60 * 60 * 1000 + 1) shared_session).1.
Proof.
  assert (wf shared_session) as Hwf.
  { apply (bool_decide_unpack _). vm_compute. exact I. }
  split; [exact Hwf|].
  destruct (sweep_keeps_uploaded_file (24 * 60 * 60 * 1000 + 1) shared_session S1
              (mkSession connA {[ connB ]} (JNum 5) doc 0) docfile Hwf)
    as [(H1 & _ & _ & H2) _].
  - vm_compute. reflexivity.
  - simpl. lia.
  - vm_compute. reflexivity.
  - apply (bool_decide_unpack _). vm_compute. exact I.
  - by split.
Defined.

(** ** Requests that name no session *)

(** What the handlers do for a session id that is in the table, and for
    one that is neither in the table nor a name found on
    [Object.prototype]. *)
Lemma page_change_contract c k page sv :
  inherited k = false →
  match own k (sessions sv) with
  | None => page_change c k page sv = (sv, [Emit c SessionNotFound])
  | Some s =>
      if decide (admin s = c) then
        page_change c k page sv
          = (with_sessions (store_modify k (set_currentPage page) (sessions sv)) sv,
             [EmitRoom k (PageUpdate page)])
        ∧ own k (sessions (page_change c k page sv).1) = Some (set_currentPage page s)
      else page_change c k page sv = (sv, [Emit c Unauthorized])
  end.
Proof.
  intros Hi. unfold page_change, get.
  destruct (own k (sessions sv)) as [s|] eqn:E; [|by rewrite Hi].
  case_decide; [|done]. split; [done|]. simpl.
  by rewrite own_store_modify, decide_True, E.
Qed.

Lemma join_session_unknown c k sv :
  inherited k = false → own k (sessions sv) = None →
  join_session c k sv = (sv, [Emit c SessionNotFound]).
Proof. intros Hi Hk. unfold join_session, get. by rewrite Hk, Hi. Qed.

(** C1, where the code departs from it: a [page-change] whose session id
    is a name found on [Object.prototype] gets past the check of line 120
    although the table has no such session, and is answered with
    [Unauthorized] instead of [SessionNotFound]. *)
Theorem page_change_inherited_name (c : conn) (k : string) (page : jsval)
    (sv : server) :
  inherited k = true →
  own k (sessions sv) = None →
  page_change c k page sv = (sv, [Emit c Unauthorized])
  ∧ (Emit c SessionNotFound ∉ (page_change c k page sv).2).
Proof.
  intros Hi Hk. unfold page_change, get. rewrite Hk, Hi. split; [done|].
  simpl. intros [H|H]%elem_of_cons; [discriminate H | by apply elem_of_nil in H].
Qed.

Lemma page_change_inherited_name_witness :
  page_change connB "constructor" (JNum 2) shared_session
    = (shared_session, [Emit connB Unauthorized]).
Proof.
  apply (page_change_inherited_name connB "constructor" (JNum 2) shared_session).
  - vm_compute. reflexivity.
  - vm_compute. reflexivity.
Defined.

(** C6, where the code departs from it: a [join-session] whose session id
    is a name found on [Object.prototype] gets past the check of line 100
    although the table has no such session; the table stays as it is, but
    the requester is told [Failed to join session], not
    [Session not found]. *)
Theorem join_session_inherited_name (c : conn) (k : string) (sv : server) :
  inherited k = true →
  own k (sessions sv) = None →
  (join_session c k sv).2
    = [ConsoleError "Error joining session:";
       Emit c (ErrorMessage "Failed to join session")]
  ∧ (Emit c SessionNotFound ∉ (join_session c k sv).2)
  ∧ sessions (join_session c k sv).1 = sessions sv.
Proof.
  intros Hi Hk. unfold join_session, get. rewrite Hk, Hi. simpl.
  split; [done|]. split; [|done].
  intros [H|[H|H]%elem_of_cons]%elem_of_cons;
    [discriminate H | discriminate H | by apply elem_of_nil in H].
Qed.

Lemma join_session_inherited_name_witness :
  (join_session connB "__proto__" shared_session).2
    = [ConsoleError "Error joining session:";
       Emit connB (ErrorMessage "Failed to join session")].
Proof.
  apply (join_session_inherited_name connB "__proto__" shared_session).
  - vm_compute. reflexivity.
  - vm_compute. reflexivity.
Defined.

(** ** The broadcast group *)

(** Creating a session and joining one both put the connection into the
    room named by the session id, which is where [page-update] goes. *)
Lemma create_session_joins_room c k now url sv :
  c ∈ room_members (create_session c k now url sv).1 k.
Proof.
  unfold create_session, socket_join, room_members. simpl.
  rewrite lookup_insert_eq. simpl.
  apply elem_of_union. left. by apply elem_of_singleton.
Qed.

Lemma join_session_joins_room c k sv s :
  own k (sessions sv) = Some s →
  c ∈ room_members (join_session c k sv).1 k
  ∧ room_members sv k ⊆ room_members (join_session c k sv).1 k.
Proof.
  intros Hs. unfold join_session, get. rewrite Hs.
  unfold socket_join, room_members. simpl. rewrite lookup_insert_eq. simpl.
  split.
  - apply elem_of_union. left. by apply elem_of_singleton.
  - intros x Hx. apply elem_of_union. by right.
Qed.

(** ** The scenario of the specification (section 8) *)
Example scenario :
  let sv1 := (step (CreateSession connA S1 0 doc) (start {[ docfile ]})).1 in
  let sv2 := (step (JoinSession connB S1) sv1).1 in
  let sv3 := (step (PageChange connA S1 (JNum 5)) sv2).1 in
  let sv4 := (step (PageChange connB S1 (JNum 6)) sv3).1 in
  let sv5 := (step (Disconnect connA) sv4).1 in
  (step (JoinSession connB S1) sv1).2 = [Emit connB (SessionJoined doc (JNum 1))]
  ∧ (step (PageChange connA S1 (JNum 5)) sv2).2 = [EmitRoom S1 (PageUpdate (JNum 5))]
  ∧ bool_decide (recipients sv2 (EmitRoom S1 (PageUpdate (JNum 5)))
                 = {[ connA; connB ]}) = true
  ∧ (step (PageChange connB S1 (JNum 6)) sv3).2 = [Emit connB Unauthorized]
  ∧ currentPage <$> own S1 (sessions sv4) = Some (JNum 5)
  ∧ get (sessions sv5) S1 = Undefined
  ∧ (step (PageChange connB S1 (JNum 6)) sv5).2 = [Emit connB SessionNotFound].
Proof.
  vm_compute. repeat split.
Qed.

(** * Further properties of the handlers *)

(** ** Stored files and their URLs *)


Lemma list_ascii_app (a b : string) :
  String.list_ascii_of_string (a +:+ b)
  = String.list_ascii_of_string a ++ String.list_ascii_of_string b.
Proof. induction a as [|x a IH]; simpl; [done|]. by rewrite IH. Qed.

Lemma chars_sanitize s :
  Forall (λ a, is_alnum a || bool_decide (a = "-"%char) = true)
    (String.list_ascii_of_string (sanitize s)).
Proof.
  induction s as [|a s IH]; simpl; constructor; [|done].
  destruct (is_alnum a) eqn:E; [by rewrite E | done].
Qed.

Lemma chars_uint d :
  Forall (λ a, is_alnum a = true)
    (String.list_ascii_of_string (NilEmpty.string_of_uint d)).
Proof. induction d; simpl; constructor; done. Qed.

Lemma chars_decimal n :
  Forall (λ a, is_alnum a || bool_decide (a = "-"%char) = true)
    (String.list_ascii_of_string (decimal n)).
Proof.
  assert (∀ d, Forall (λ a, is_alnum a || bool_decide (a = "-"%char) = true)
                 (String.list_ascii_of_string (NilZero.string_of_uint d))) as Hu.
  { intros d.
    assert (Forall (λ a, is_alnum a || bool_decide (a = "-"%char) = true)
              (String.list_ascii_of_string (NilEmpty.string_of_uint d))) as Hd.
    { eapply Forall_impl; [apply chars_uint|]. simpl. by intros a ->. }
    destruct d; try exact Hd. simpl. by repeat constructor. }
  unfold decimal, NilZero.string_of_int.
  destruct (Z.to_int n); [apply Hu|]. simpl. constructor; [done | apply Hu].
Qed.

(** Every character of a stored file name is a letter, a digit, [-] or
    [.]. *)
Lemma chars_filename fieldname now :
  Forall (λ a, filename_char a = true)
    (String.list_ascii_of_string (filename fieldname now)).
Proof.
  unfold filename. rewrite !list_ascii_app, !Forall_app.
  assert (∀ l, Forall (λ a, is_alnum a || bool_decide (a = "-"%char) = true) l →
               Forall (λ a, filename_char a = true) l) as Hw.
  { intros l H. eapply Forall_impl; [exact H|]. simpl.
    intros a Ha. unfold filename_char. by rewrite Ha. }
  split; [apply Hw, chars_sanitize|]. split; [by repeat constructor|].
  split; [apply Hw, chars_decimal | by repeat constructor].
Qed.

Lemma filename_no_slash fieldname now :
  slash ∉ String.list_ascii_of_string (filename fieldname now).
Proof.
  intros H. pose proof (chars_filename fieldname now) as Hc.
  rewrite Forall_forall in Hc. by apply Hc in H.
Qed.

Lemma skip_slashes_app l rest :
  (∃ a t, l = a :: t ∧ a ≠ slash) → skip_slashes (l ++ rest) = l ++ rest.
Proof. intros (a & t & -> & Ha). simpl. by rewrite decide_False. Qed.

Lemma upto_slash_app l rest :
  slash ∉ l → upto_slash (l ++ slash :: rest) = l.
Proof.
  induction l as [|a l IH]; simpl; intros H.
  - by destruct (decide (slash = slash)).
  - apply not_elem_of_cons in H as [Ha Hl].
    rewrite decide_False by done. by rewrite IH.
Qed.

(** The basename of a directory prefix, a slash and a slash-free name is
    that name. *)
Lemma basename_entry (dir name : string) :
  name ≠ "" → slash ∉ String.list_ascii_of_string name →
  basename (dir +:+ "/" +:+ name) = name.
Proof.
  intros Hne Hns. unfold basename.
  rewrite !list_ascii_app. simpl.
  rewrite rev_app_distr. simpl. rewrite <- app_assoc. simpl.
  set (n := String.list_ascii_of_string name) in *.
  assert (n ≠ []) as Hn.
  { intros E. apply Hne. rewrite <- (String.string_of_list_ascii_of_string name).
    fold n. by rewrite E. }
  assert (slash ∉ rev n) as Hr.
  { intros H. by apply list_elem_of_In, in_rev, list_elem_of_In in H. }
  rewrite skip_slashes_app.
  - rewrite upto_slash_app by done. rewrite rev_involutive.
    apply String.string_of_list_ascii_of_string.
  - destruct (rev n) as [|a t] eqn:E.
    + apply (f_equal (@rev _)) in E. rewrite rev_involutive in E. done.
    + exists a, t. split; [done|]. intros ->. apply Hr. apply elem_of_cons. by left.
Qed.

Lemma filename_has_dash fieldname now :
  "-"%char ∈ String.list_ascii_of_string (filename fieldname now).
Proof.
  unfold filename. rewrite !list_ascii_app. simpl.
  apply elem_of_app. right. apply elem_of_cons. by left.
Qed.

(** A stored file name resolves to an entry of the uploads directory. *)
Lemma filePath_filename fieldname now :
  filePath (filename fieldname now) = UploadEntry (filename fieldname now).
Proof.
  pose proof (filename_has_dash fieldname now) as H.
  unfold filePath.
  repeat case_decide; try done;
    match goal with E : filename _ _ = _ |- _ => rewrite E in H end;
    simpl in H; repeat (apply elem_of_cons in H as [H|H]; [done|]);
    by apply elem_of_nil in H.
Qed.

Lemma filename_nonempty fieldname now : filename fieldname now ≠ "".
Proof.
  intros E. pose proof (filename_has_dash fieldname now) as H.
  rewrite E in H. by apply elem_of_nil in H.
Qed.

(** X1: the URL [POST /upload] answers with resolves, in the disconnect
    handler, to the very file multer stored: the basename of the URL is the
    stored name, and the path joined from it is that entry of the uploads
    directory. *)
Theorem upload_url_resolves (fieldname : string) (now : Z) (url : string) :
  upload_route (Some (filename fieldname now)) = FileUrl url →
  basename url = filename fieldname now
  ∧ filePath (basename url) = UploadEntry (filename fieldname now)
  ∧ ∀ c v p t, blob_of (mkSession c v p (JStr url) t) = Some (filename fieldname now).
Proof.
  intros [= <-].
  assert (basename ("/uploads/" +:+ filename fieldname now) = filename fieldname now)
    as Hb.
  { apply (basename_entry "/uploads" (filename fieldname now)).
    - apply filename_nonempty.
    - apply filename_no_slash. }
  split; [done|]. split.
  - rewrite Hb. apply filePath_filename.
  - intros c v p t. unfold blob_of. simpl. by rewrite Hb, filePath_filename.
Qed.

Lemma upload_url_resolves_witness :
  basename "/uploads/pdf-1700000000000.pdf" = filename "pdf" 1700000000000.
Proof.
  apply (upload_url_resolves "pdf" 1700000000000 "/uploads/pdf-1700000000000.pdf").
  vm_compute. reflexivity.
Defined.

(** X2: a stored file name consists of letters, digits, [-] and [.] only,
    whatever the field name was; in particular it holds no [/], and the
    part before the time stamp is a fixed point of the sanitising. *)
Theorem filename_is_safe (fieldname : string) (now : Z) :
  Forall (λ a, filename_char a = true)
    (String.list_ascii_of_string (filename fieldname now))
  ∧ (slash ∉ String.list_ascii_of_string (filename fieldname now))
  ∧ sanitize (sanitize fieldname) = sanitize fieldname.
Proof.
  split; [apply chars_filename|]. split; [apply filename_no_slash|].
  induction fieldname as [|a s IH]; simpl; [done|].
  rewrite IH. f_equal. by destruct (is_alnum a) eqn:E; [rewrite E|].
Qed.

(** ** What one request changes *)

Lemma room_members_socket_join c r r' sv :
  room_members (socket_join c r sv) r' =
    if decide (r = r') then {[ c ]} ∪ room_members sv r else room_members sv r'.
Proof.
  unfold room_members, socket_join. simpl.
  destruct (decide (r = r')) as [->|Hne].
  - by rewrite lookup_insert_eq.
  - by rewrite lookup_insert_ne.
Qed.

(** X3: [create-session] puts a fresh record under the new id (the sender
    as controller, no viewers, page 1, the given URL and time), leaves the
    records under all other ids and the uploads alone, puts the sender into
    the room of the new id and into no other, and answers the sender only. *)
Theorem create_session_effect (c : conn) (k : string) (now : Z) (url : jsval)
    (sv : server) :
  own k (sessions (create_session c k now url sv).1)
    = Some (mkSession c ∅ (JNum 1) url now)
  ∧ (∀ k', k' ≠ k →
       own k' (sessions (create_session c k now url sv).1) = own k' (sessions sv))
  ∧ uploads (create_session c k now url sv).1 = uploads sv
  ∧ room_members (create_session c k now url sv).1 k = {[ c ]} ∪ room_members sv k
  ∧ (∀ r, r ≠ k →
       room_members (create_session c k now url sv).1 r = room_members sv r)
  ∧ (create_session c k now url sv).2 = [Emit c (SessionCreated k)].
Proof.
  unfold create_session. cbn [fst snd].
  split; [|split; [|split; [|split; [|split]]]]; try done.
  - simpl. rewrite own_store_set. by rewrite decide_True.
  - intros k' Hne. simpl. rewrite own_store_set. by rewrite decide_False.
  - rewrite room_members_socket_join. by rewrite decide_True.
  - intros r Hne. rewrite room_members_socket_join. by rewrite decide_False.
Qed.

(** X4: [join-session] for an id that has a record adds the sender to the
    viewers of that record and changes nothing else in it; the records
    under other ids, the order of the table and the uploads stay as they
    are, and the sender is in the room of the session afterwards. *)
Theorem join_session_effect (c : conn) (k : string) (sv : server) (s : session) :
  own k (sessions sv) = Some s →
  own k (sessions (join_session c k sv).1)
    = Some (mkSession (admin s) ({[ c ]} ∪ viewers s) (currentPage s) (pdfUrl s)
              (createdAt s))
  ∧ (∀ k', k' ≠ k →
       own k' (sessions (join_session c k sv).1) = own k' (sessions sv))
  ∧ keys (sessions (join_session c k sv).1) = keys (sessions sv)
  ∧ uploads (join_session c k sv).1 = uploads sv
  ∧ room_members (join_session c k sv).1 k = {[ c ]} ∪ room_members sv k.
Proof.
  intros Hs. unfold join_session, get. rewrite Hs. cbn [fst].
  split; [|split; [|split; [|split]]].
  - simpl. rewrite own_store_modify. rewrite decide_True by done. by rewrite Hs.
  - intros k' Hne. simpl. rewrite own_store_modify. by rewrite decide_False.
  - simpl. apply keys_store_modify.
  - done.
  - change (room_members (socket_join c k sv) k = {[c]} ∪ room_members sv k).
    rewrite room_members_socket_join. by rewrite decide_True.
Qed.

Lemma join_session_effect_witness :
  viewers <$> own S1 (sessions (join_session connA S1 shared_session).1)
    = Some ({[ connA ]} ∪ {[ connB ]}).
Proof.
  destruct (join_session_effect connA S1 shared_session
              (mkSession connA {[ connB ]} (JNum 5) doc 0)) as [H _].
  - vm_compute. reflexivity.
  - rewrite H. reflexivity.
Defined.

(** X5: [join-session] for an id that has no record leaves the table and
    the uploads as they are, whatever the id is, and what it emits is an
    error to the sender and nothing else. *)
Theorem join_session_no_record (c : conn) (k : string) (sv : server) :
  own k (sessions sv) = None →
  sessions (join_session c k sv).1 = sessions sv
  ∧ uploads (join_session c k sv).1 = uploads sv
  ∧ ∀ x, x ∈ (join_session c k sv).2 →
      (∃ text, x = ConsoleError text) ∨ (∃ text, x = Emit c (ErrorMessage text)).
Proof.
  intros Hk. unfold join_session, get. rewrite Hk.
  destruct (inherited k); simpl; repeat split.
  - intros x [->|[->|[]%elem_of_nil]%elem_of_cons]%elem_of_cons; eauto.
  - intros x [->|[]%elem_of_nil]%elem_of_cons. right. by eexists.
Qed.

Lemma join_session_no_record_witness :
  sessions (join_session connB S2 shared_session).1 = sessions shared_session.
Proof.
  apply (join_session_no_record connB S2 shared_session).
  vm_compute. reflexivity.
Defined.



Lemma own_page_change c k page sv s :
  own k (sessions sv) = Some s → admin s = c →
  own k (sessions (page_change c k page sv).1) = Some (set_currentPage page s).
Proof.
  intros Hs Hc. unfold page_change, get. rewrite Hs.
  rewrite decide_True by done. simpl.
  rewrite own_store_modify. rewrite decide_True by done. by rewrite Hs.
Qed.

(** X7: a [page-change] from the controller stores the page number in the
    record of the session and changes nothing else: the other fields of
    the record, the records under other ids, the order of the table, the
    rooms and the uploads stay, and the one thing emitted is the
    [page-update] to the room of the session. *)
Theorem page_change_accepted (c : conn) (k : string) (page : jsval) (sv : server)
    (s : session) :
  own k (sessions sv) = Some s →
  admin s = c →
  own k (sessions (page_change c k page sv).1)
    = Some (mkSession (admin s) (viewers s) page (pdfUrl s) (createdAt s))
  ∧ (∀ k', k' ≠ k →
       own k' (sessions (page_change c k page sv).1) = own k' (sessions sv))
  ∧ keys (sessions (page_change c k page sv).1) = keys (sessions sv)
  ∧ rooms (page_change c k page sv).1 = rooms sv
  ∧ uploads (page_change c k page sv).1 = uploads sv
  ∧ (page_change c k page sv).2 = [EmitRoom k (PageUpdate page)].
Proof.
  intros Hs Hc. unfold page_change, get. rewrite Hs.
  rewrite decide_True by done. simpl. repeat split.
  - rewrite own_store_modify. rewrite decide_True by done. by rewrite Hs.
  - intros k' Hne. rewrite own_store_modify. by rewrite decide_False.
  - apply keys_store_modify.
Qed.

Lemma page_change_accepted_witness :
  currentPage <$> own S1 (sessions (page_change connA S1 (JNum 9) shared_session).1)
    = Some (JNum 9).
Proof.
  destruct (page_change_accepted connA S1 (JNum 9) shared_session
              (mkSession connA {[ connB ]} (JNum 5) doc 0)) as [H _].
  - vm_compute. reflexivity.
  - reflexivity.
  - rewrite H. reflexivity.
Defined.

(** X8: a connection that joins after the controller turned the page is
    told the page the controller turned to. *)
Theorem join_after_page_change (a c : conn) (k : string) (page : jsval)
    (sv : server) (s : session) :
  own k (sessions sv) = Some s →
  admin s = a →
  (join_session c k (page_change a k page sv).1).2
    = [Emit c (SessionJoined (pdfUrl s) page)].
Proof.
  intros Hs Ha.
  unfold join_session, get. by rewrite (own_page_change a k page sv s Hs Ha).
Qed.

Lemma join_after_page_change_witness :
  (join_session connB S2
     (page_change connB S2 (JNum 3) two_sessions).1).2
    = [Emit connB (SessionJoined doc (JNum 3))].
Proof.
  apply (join_after_page_change connB connB S2 (JNum 3) two_sessions
           (mkSession connB ∅ (JNum 1) doc 1)).
  - vm_compute. reflexivity.
  - reflexivity.
Defined.

(** ** The life of a session record *)

Lemma own_disconnect c sv k s :
  wf sv → own k (sessions sv) = Some s →
  (own k (sessions (disconnect c sv).1) = None ∧ admin s = c)
  ∨ (own k (sessions (disconnect c sv).1) = Some (remove_viewer c s) ∧ admin s ≠ c)
  ∨ own k (sessions (disconnect c sv).1) = Some s.
Proof.
  intros Hwf Hs.
  destruct (split_at_throw c (sessions sv)) as (done & tail & Hsv & Hok & Hstop).
  destruct (disconnect_split c sv done tail Hwf Hsv Hok Hstop) as (up' & e & -> & _).
  unfold wf in Hwf. rewrite Hsv in Hwf, Hs. unfold keys in Hwf.
  rewrite fmap_app in Hwf. apply NoDup_app in Hwf as (Hnd1 & Hdisj & _).
  simpl. rewrite own_app, own_reconcile by done.
  rewrite own_app in Hs.
  destruct (own k done) as [s0|] eqn:E.
  - assert (s0 = s) as -> by congruence.
    destruct (decide (admin s = c)) as [Hc|Hc]; [|right; left; done].
    left. split; [|done]. apply own_None. apply Hdisj.
    eapply elem_keys, own_Some_elem, E.
  - by right; right.
Qed.

(** Every way a step can change the record under an id that the step does
    not create anew. *)
Lemma own_step_cases e sv k s :
  wf sv → own k (sessions sv) = Some s → creates k e = false →
  own k (sessions (step e sv).1) = Some s
  ∨ (∃ c, e = JoinSession c k
        ∧ own k (sessions (step e sv).1) = Some (add_viewer c s))
  ∨ (∃ p, e = PageChange (admin s) k p
        ∧ own k (sessions (step e sv).1) = Some (set_currentPage p s))
  ∨ (∃ c, e = Disconnect c ∧ admin s ≠ c
        ∧ own k (sessions (step e sv).1) = Some (remove_viewer c s))
  ∨ (e = Disconnect (admin s) ∧ own k (sessions (step e sv).1) = None)
  ∨ (∃ now, e = Sweep now ∧ now - createdAt s > DAY
        ∧ own k (sessions (step e sv).1) = None).
Proof.
  intros Hwf Hs Hcr.
  destruct e as [c k' now url|c k'|c k' page|c|now|f]; cbn [step].
  - left. simpl in Hcr. apply bool_decide_eq_false in Hcr.
    simpl. rewrite own_store_set. by rewrite decide_False.
  - unfold join_session, get.
    destruct (own k' (sessions sv)) as [s0|] eqn:E; simpl.
    + rewrite own_store_modify. destruct (decide (k' = k)) as [->|Hne].
      * right. left. exists c. split; [done|].
        assert (s0 = s) as -> by congruence. by rewrite Hs.
      * by left.
    + left. by destruct (inherited k').
  - unfold page_change, get.
    destruct (own k' (sessions sv)) as [s0|] eqn:E; simpl.
    + destruct (decide (admin s0 = c)) as [Hc|Hc]; simpl; [|by left].
      rewrite own_store_modify. destruct (decide (k' = k)) as [->|Hne]; [|by left].
      assert (s0 = s) as -> by congruence. subst c.
      right. right. left. exists page. by rewrite Hs.
    + left. by destruct (inherited k').
  - destruct (own_disconnect c sv k s Hwf Hs) as [[H1 H2]|[[H1 H2]|H1]].
    + subst c. do 4 right. left. done.
    + do 3 right. left. exists c. done.
    + by left.
  - rewrite (sweep_lookup now sv k Hwf), Hs.
    case_decide; [by left|]. do 5 right. exists now. split; [done|]. split; [lia|done].
  - by left.
Qed.

Lemma keys_cleanup_session c k s sv k' :
  k' ∈ keys (sessions (cleanup_session c k s sv).1.1) → k' ∈ keys (sessions sv).
Proof.
  unfold cleanup_session.
  repeat (case_match; simpl); try done; try apply keys_store_delete.
  by rewrite keys_store_modify.
Qed.

Lemma keys_disconnect_loop c ks k' : ∀ sv,
  k' ∈ keys (sessions (disconnect_loop c ks sv).1.1) → k' ∈ keys (sessions sv).
Proof.
  induction ks as [|k ks IH]; simpl; intros sv; [done|].
  destruct (own k (sessions sv)) as [s|]; [|auto].
  pose proof (keys_cleanup_session c k s sv k') as H1.
  destruct (cleanup_session c k s sv) as [[sv1 e1] [|]]; simpl in *; [done|].
  specialize (IH sv1).
  destruct (disconnect_loop c ks sv1) as [[sv2 e2] t2]. simpl in *. auto.
Qed.

Lemma keys_sweep_loop now ks k' : ∀ st,
  k' ∈ keys (sweep_loop now ks st) → k' ∈ keys st.
Proof.
  induction ks as [|k ks IH]; simpl; intros st; [done|].
  destruct (own k st) as [s|]; [|auto].
  intros H. apply IH in H. destruct (expired now s); [|done].
  eapply keys_store_delete, H.
Qed.

(** A step that does not create a record under [k] does not bring one
    about. *)
Lemma own_step_None e sv k :
  own k (sessions sv) = None → creates k e = false →
  own k (sessions (step e sv).1) = None.
Proof.
  rewrite !own_None. intros Hk Hcr H. apply Hk. clear Hk.
  destruct e as [c k' now url|c k'|c k' page|c|now|f]; simpl in *.
  - apply bool_decide_eq_false in Hcr. rewrite keys_store_set in H.
    destruct (own k' (sessions sv)); [done|].
    apply elem_of_app in H as [H|[H|[]%elem_of_nil]%elem_of_cons]; [done|congruence].
  - unfold join_session, get in H.
    destruct (own k' (sessions sv)); simpl in H.
    + by rewrite keys_store_modify in H.
    + by destruct (inherited k').
  - unfold page_change, get in H.
    destruct (own k' (sessions sv)); simpl in H.
    + case_decide; simpl in H; [|done]. by rewrite keys_store_modify in H.
    + by destruct (inherited k').
  - unfold disconnect in H.
    pose proof (keys_disconnect_loop c (keys (sessions (socket_leave_all c sv))) k
                  (socket_leave_all c sv)) as H1.
    destruct (disconnect_loop _ _ _) as [[sv1 e1] t1]. simpl in *. auto.
  - eapply keys_sweep_loop, H.
  - done.
Qed.

Lemma own_run_None k es : ∀ sv,
  own k (sessions sv) = None → forallb (λ e, negb (creates k e)) es = true →
  own k (sessions (run es sv)) = None.
Proof.
  induction es as [|e es IH]; simpl; intros sv Hk Hes; [done|].
  apply andb_true_iff in Hes as [He Hes]. apply negb_true_iff in He.
  apply IH; [|done]. by apply own_step_None.
Qed.

(** X9: the controller, the document URL and the creation time of a session
    never change: along every sequence of events that does not create a
    session under the same id again, a record found under that id has the
    [admin], [pdfUrl] and [createdAt] it had before. *)
Theorem session_identity_fixed (k : string) (es : list event) (sv : server)
    (s s' : session) :
  wf sv →
  forallb (λ e, negb (creates k e)) es = true →
  own k (sessions sv) = Some s →
  own k (sessions (run es sv)) = Some s' →
  admin s' = admin s ∧ pdfUrl s' = pdfUrl s ∧ createdAt s' = createdAt s.
Proof.
  revert sv s. induction es as [|e es IH]; simpl; intros sv s Hwf Hes Hs Hs'.
  - by assert (s' = s) as -> by congruence.
  - apply andb_true_iff in Hes as [He Hes]. apply negb_true_iff in He.
    pose proof (wf_step e sv Hwf) as Hwf1.
    destruct (own_step_cases e sv k s Hwf Hs He)
      as [H|[(c & _ & H)|[(p & _ & H)|[(c & _ & _ & H)|[[_ H]|(now & _ & _ & H)]]]]];
      try (by rewrite (own_run_None k es _ H Hes) in Hs');
      by destruct (IH _ _ Hwf1 Hes H Hs') as (-> & -> & ->).
Qed.

Lemma session_identity_fixed_witness :
  own S1 (sessions (run [JoinSession connA S2; Disconnect connB;
                         PageChange connA S1 (JNum 7)] shared_session))
    = Some (mkSession connA ∅ (JNum 7) doc 0)
  ∧ admin (mkSession connA ∅ (JNum 7) doc 0) = connA.
Proof.
  assert (own S1 (sessions (run [JoinSession connA S2; Disconnect connB;
                                 PageChange connA S1 (JNum 7)] shared_session))
          = Some (mkSession connA ∅ (JNum 7) doc 0)) as Hrun.
  { vm_compute. reflexivity. }
  split; [exact Hrun|].
  apply (session_identity_fixed S1
           [JoinSession connA S2; Disconnect connB; PageChange connA S1 (JNum 7)]
           shared_session (mkSession connA {[ connB ]} (JNum 5) doc 0)
           (mkSession connA ∅ (JNum 7) doc 0)).
  - apply (bool_decide_unpack _). vm_compute. exact I.
  - vm_compute. reflexivity.
  - vm_compute. reflexivity.
  - exact Hrun.
Defined.

(** X10: only the controller turns the page: when a step leaves the record
    of a session with another [currentPage] than it had, the step is a
    [page-change] for that session sent by its controller, carrying the new
    page. *)
Theorem currentPage_changed_by_controller (e : event) (sv : server) (k : string)
    (s s' : session) :
  wf sv →
  creates k e = false →
  own k (sessions sv) = Some s →
  own k (sessions (step e sv).1) = Some s' →
  currentPage s' ≠ currentPage s →
  e = PageChange (admin s) k (currentPage s').
Proof.
  intros Hwf He Hs Hs' Hp.
  destruct (own_step_cases e sv k s Hwf Hs He)
    as [H|[(c & _ & H)|[(p & -> & H)|[(c & _ & _ & H)|[[_ H]|(now & _ & _ & H)]]]]];
    rewrite H in Hs'; simplify_eq; try done.
Qed.

Lemma currentPage_changed_by_controller_witness :
  PageChange connA S1 (JNum 9) = PageChange connA S1 (JNum 9).
Proof.
  apply (currentPage_changed_by_controller (PageChange connA S1 (JNum 9))
           shared_session S1 (mkSession connA {[ connB ]} (JNum 5) doc 0)
           (mkSession connA {[ connB ]} (JNum 9) doc 0)).
  - apply (bool_decide_unpack _). vm_compute. exact I.
  - reflexivity.
  - vm_compute. reflexivity.
  - vm_compute. reflexivity.
  - simpl. discriminate.
Defined.



(** X12: a session begins in one way only: when a step brings about a
    record under an id that had none, the step is a [create-session] that
    drew this id, and the record is the fresh one, with the sender as
    controller, no viewers and page 1. *)
Theorem session_added_by (e : event) (sv : server) (k : string) (s' : session) :
  own k (sessions sv) = None →
  own k (sessions (step e sv).1) = Some s' →
  ∃ c now url, e = CreateSession c k now url ∧ s' = mkSession c ∅ (JNum 1) url now.
Proof.
  intros Hk Hs'.
  destruct (creates k e) eqn:He.
  - destruct e as [c k' now url| | | | |]; try done.
    simpl in He. apply bool_decide_eq_true in He as ->.
    simpl in Hs'. rewrite own_store_set in Hs'. rewrite decide_True in Hs' by done.
    exists c, now, url. split; congruence.
  - by rewrite (own_step_None e sv k Hk He) in Hs'.
Qed.

Lemma session_added_by_witness :
  ∃ c now url, CreateSession connB S2 3 doc = CreateSession c S2 now url
               ∧ mkSession connB ∅ (JNum 1) doc 3 = mkSession c ∅ (JNum 1) url now.
Proof.
  apply (session_added_by (CreateSession connB S2 3 doc) shared_session S2).
  - vm_compute. reflexivity.
  - vm_compute. reflexivity.
Defined.

(** X13: a connection becomes a viewer of a session by its own
    [join-session] only, and stops being one by its own disconnect only
    (while the session lasts). *)
Theorem viewers_changed_by (e : event) (sv : server) (k : string) (s s' : session)
    (v : conn) :
  wf sv →
  creates k e = false →
  own k (sessions sv) = Some s →
  own k (sessions (step e sv).1) = Some s' →
  (v ∉ viewers s → v ∈ viewers s' → e = JoinSession v k)
  ∧ (v ∈ viewers s → v ∉ viewers s' → e = Disconnect v).
Proof.
  intros Hwf He Hs Hs'.
  destruct (own_step_cases e sv k s Hwf Hs He)
    as [H|[(c & -> & H)|[(p & _ & H)|[(c & -> & _ & H)|[[_ H]|(now & _ & _ & H)]]]]];
    rewrite H in Hs'; simplify_eq; simpl; try (split; intros; done).
  - split; [|intros H1 H2; destruct H2; apply elem_of_union; by right].
    intros H1 [H2|H2]%elem_of_union; [|done].
    by apply elem_of_singleton in H2 as ->.
  - split; [intros H1 H2; by apply elem_of_difference in H2 as [? _]|].
    intros H1 H2. destruct (decide (v = c)) as [->|Hne]; [done|].
    destruct H2. apply elem_of_difference. by rewrite elem_of_singleton.
Qed.

Lemma viewers_changed_by_witness :
  own S1 (sessions (step (Disconnect connB) shared_session).1)
    = Some (mkSession connA ∅ (JNum 5) doc 0)
  ∧ Disconnect connB = Disconnect connB.
Proof.
  assert (own S1 (sessions (step (Disconnect connB) shared_session).1)
          = Some (mkSession connA ∅ (JNum 5) doc 0)) as Hstep.
  { vm_compute. reflexivity. }
  split; [exact Hstep|].
  destruct (viewers_changed_by (Disconnect connB) shared_session S1
              (mkSession connA {[ connB ]} (JNum 5) doc 0)
              (mkSession connA ∅ (JNum 5) doc 0) connB) as [_ H].
  - apply (bool_decide_unpack _). vm_compute. exact I.
  - reflexivity.
  - vm_compute. reflexivity.
  - exact Hstep.
  - apply H; simpl.
    + by apply elem_of_singleton.
    + apply not_elem_of_empty.
Defined.

(** ** What a disconnect does and does not do *)

Lemma effects_cleanup_session c k s sv x :
  x ∈ (cleanup_session c k s sv).1.2 → ∃ p, x = Unlink p.
Proof.
  unfold cleanup_session.
  repeat (case_match; simpl);
    intros Hx; try (by apply elem_of_nil in Hx);
    apply list_elem_of_singleton in Hx; eauto.
Qed.

Lemma effects_disconnect_loop c ks x : ∀ sv,
  x ∈ (disconnect_loop c ks sv).1.2 → ∃ p, x = Unlink p.
Proof.
  induction ks as [|k ks IH]; simpl; intros sv H.
  - by apply elem_of_nil in H.
  - destruct (own k (sessions sv)) as [s|]; [|eauto].
    pose proof (effects_cleanup_session c k s sv x) as H1.
    destruct (cleanup_session c k s sv) as [[sv1 e1] [|]]; simpl in *; [auto|].
    specialize (IH sv1).
    destruct (disconnect_loop c ks sv1) as [[sv2 e2] t2]. simpl in *.
    apply elem_of_app in H as [H|H]; auto.
Qed.

Lemma effects_disconnect c sv x :
  x ∈ (disconnect c sv).2 → (∃ p, x = Unlink p) ∨ (∃ text, x = ConsoleError text).
Proof.
  unfold disconnect.
  pose proof (effects_disconnect_loop c (keys (sessions (socket_leave_all c sv))) x
                (socket_leave_all c sv)) as H1.
  destruct (disconnect_loop _ _ _) as [[sv1 e1] [|]]; simpl in *.
  - intros [H|H]%elem_of_app; [by left; auto|].
    apply list_elem_of_singleton in H. right. eauto.
  - intros H. left. auto.
Qed.

(** X14: who is told what.  Whatever a step emits to a single socket goes
    to the socket whose request is being handled, and the one thing ever
    sent to a room is the [page-update] of a [page-change] for that room's
    session; a disconnect and a sweep, having no requester, tell no socket
    anything. *)
Theorem emissions_go_to_sender (e : event) (sv : server) (x : effect) :
  x ∈ (step e sv).2 →
  match x with
  | Emit c _ => sender e = Some c
  | EmitRoom r m => ∃ c page, e = PageChange c r page ∧ m = PageUpdate page
  | Unlink _ => ∃ c, e = Disconnect c
  | ConsoleError _ => True
  end.
Proof.
  destruct e as [c k now url|c k|c k page|c|now|f]; simpl.
  - intros H. by apply list_elem_of_singleton in H as ->.
  - unfold join_session, get.
    destruct (own k (sessions sv)); [|destruct (inherited k)]; simpl;
      intros H; repeat (apply elem_of_cons in H as [->|H]; [done|]);
      by apply elem_of_nil in H.
  - unfold page_change, get.
    destruct (own k (sessions sv)); [case_decide|destruct (inherited k)]; simpl;
      intros Hx; apply list_elem_of_singleton in Hx as ->; eauto.
  - intros H. destruct (effects_disconnect c sv x H) as [[p ->]|[t ->]]; eauto.
  - intros H. by apply elem_of_nil in H.
  - intros H. by apply elem_of_nil in H.
Qed.

Lemma emissions_go_to_sender_witness :
  sender (PageChange connB S1 (JNum 6)) = Some connB.
Proof.
  apply (emissions_go_to_sender (PageChange connB S1 (JNum 6)) shared_session
           (Emit connB Unauthorized)).
  vm_compute. apply elem_of_cons. by left.
Defined.

(** The documents of the sessions [c] controls in the table [st]. *)
Lemma blob_of_remove_viewer c s : blob_of (remove_viewer c s) = blob_of s.
Proof. done. Qed.

Lemma uploads_disconnect_loop c (B : string → Prop) ks : ∀ sv,
  every_session (λ s, admin s = c → ∀ n, blob_of s = Some n → B n) (sessions sv) →
  uploads (disconnect_loop c ks sv).1.1 ⊆ uploads sv
  ∧ ∀ n, n ∈ uploads sv → n ∉ uploads (disconnect_loop c ks sv).1.1 → B n.
Proof.
  induction ks as [|k ks IH]; simpl; intros sv Hq; [done|].
  destruct (own k (sessions sv)) as [s|] eqn:Hs; [|auto].
  assert (admin s = c → ∀ n, blob_of s = Some n → B n) as Hqs.
  { unfold every_session in Hq. rewrite Forall_forall in Hq.
    apply (Hq (k, s)). by apply own_Some_elem. }
  pose proof (every_cleanup_session
                (λ s, admin s = c → ∀ n, blob_of s = Some n → B n)
                (λ _ _ H, H) c k s sv Hq) as Hq1.
  assert (uploads (cleanup_session c k s sv).1.1 ⊆ uploads sv
          ∧ ∀ n, n ∈ uploads sv → n ∉ uploads (cleanup_session c k s sv).1.1 → B n)
    as [Hsub1 Hgone1].
  { destruct (decide (admin s = c)) as [Hc|Hc].
    - destruct (blob_of s) as [n|] eqn:Hb.
      + rewrite (cleanup_session_controller c k s sv n) by done. simpl. split.
        * intros x Hx. by apply elem_of_difference in Hx as [? _].
        * intros n' Hn' Hn''. destruct (decide (n' = n)) as [->|Hne]; [by apply Hqs|].
          destruct Hn''. apply elem_of_difference. by rewrite elem_of_singleton.
      + rewrite cleanup_session_throws; [done|].
        unfold cleanup_throws. by rewrite !bool_decide_eq_true_2.
    - by rewrite cleanup_session_viewer. }
  destruct (cleanup_session c k s sv) as [[sv1 e1] [|]]; simpl in *; [done|].
  destruct (IH sv1 Hq1) as [Hsub2 Hgone2].
  destruct (disconnect_loop c ks sv1) as [[sv2 e2] t2]. simpl in *. split.
  - intros x Hx. auto.
  - intros n Hn Hn'. destruct (decide (n ∈ uploads sv1)); auto.
Qed.

(** X15: a disconnect only ever takes files away, and only files that a
    session controlled by the closing connection points to: whatever entry
    of the uploads directory is gone afterwards is the resolved [pdfUrl] of
    such a session. *)
Theorem disconnect_removes_only_own_files (c : conn) (sv : server) :
  uploads (disconnect c sv).1 ⊆ uploads sv
  ∧ ∀ n, n ∈ uploads sv → n ∉ uploads (disconnect c sv).1 →
      ∃ k s, (k, s) ∈ sessions sv ∧ admin s = c ∧ blob_of s = Some n.
Proof.
  unfold disconnect.
  pose proof (uploads_disconnect_loop c
    (λ n, ∃ k s, (k, s) ∈ sessions sv ∧ admin s = c ∧ blob_of s = Some n)
    (keys (sessions (socket_leave_all c sv))) (socket_leave_all c sv)) as H.
  destruct (disconnect_loop _ _ _) as [[sv1 e1] t1]. simpl in *.
  apply H. unfold every_session. apply Forall_forall.
  intros [k s] Hks Hc n Hb. by exists k, s.
Qed.

Lemma disconnect_loop_viewer c : ∀ rest pre rm up,
  NoDup (keys (pre ++ rest)) →
  Forall (λ ks, admin (snd ks) ≠ c) rest →
  disconnect_loop c (keys rest) (mkServer (pre ++ rest) rm up)
    = (mkServer (pre ++ map (λ ks, (fst ks, remove_viewer c (snd ks))) rest) rm up,
       [], false).
Proof.
  induction rest as [|[k s] rest IH]; intros pre rm up Hnd Hv; simpl.
  - by rewrite !app_nil_r.
  - apply Forall_cons in Hv as [Hs Hv]. simpl in Hs.
    pose proof Hnd as Hnd0.
    apply NoDup_keys_app_cons in Hnd as (Hk & _ & _).
    rewrite own_app_notin by done. simpl. rewrite decide_True by done.
    rewrite cleanup_session_viewer by done. unfold with_sessions. simpl.
    rewrite store_modify_app_notin by done. simpl. rewrite decide_True by done.
    replace (pre ++ (k, remove_viewer c s) :: rest)
      with ((pre ++ [(k, remove_viewer c s)]) ++ rest)
      by (by rewrite <- app_assoc).
    rewrite IH; [by rewrite <- app_assoc| |done].
    destruct (NoDup_keys_app_cons pre k (remove_viewer c s) rest) as (_ & _ & H');
      [|done].
    revert Hnd0. unfold keys. by rewrite !fmap_app, !fmap_cons.
Qed.

(** X16: the disconnect of a connection that controls no session ends no
    session: every record stays under its id and in its place, with the
    connection taken out of its viewers and nothing else changed; no file
    is touched and nothing is emitted or logged. *)
Theorem disconnect_of_viewer (c : conn) (sv : server) :
  wf sv →
  (∀ k s, (k, s) ∈ sessions sv → admin s ≠ c) →
  sessions (disconnect c sv).1
    = map (λ ks, (fst ks, remove_viewer c (snd ks))) (sessions sv)
  ∧ uploads (disconnect c sv).1 = uploads sv
  ∧ (disconnect c sv).2 = [].
Proof.
  intros Hwf Hv.
  assert (disconnect c sv =
          (mkServer (map (λ ks, (fst ks, remove_viewer c (snd ks))) (sessions sv))
             (rooms (socket_leave_all c sv)) (uploads sv), [])) as ->; [|done].
  unfold disconnect.
  pose proof (disconnect_loop_viewer c (sessions sv) []
                (rooms (socket_leave_all c sv)) (uploads sv) Hwf) as H.
  simpl in H. unfold socket_leave_all at 1 2. cbn [sessions]. rewrite H; [done|].
  apply Forall_forall. intros [k s]. apply Hv.
Qed.

Lemma disconnect_of_viewer_witness :
  wf shared_session ∧ (disconnect connB shared_session).2 = [].
Proof.
  assert (wf shared_session) as Hwf.
  { apply (bool_decide_unpack _). vm_compute. exact I. }
  split; [exact Hwf|].
  apply (disconnect_of_viewer connB shared_session Hwf).
  intros k s Hks.
  assert (sessions shared_session = [(S1, mkSession connA {[ connB ]} (JNum 5) doc 0)])
    as E by (vm_compute; reflexivity).
  rewrite E in Hks. apply list_elem_of_singleton in Hks. injection Hks as -> ->.
  vm_compute. discriminate.
Defined.

Lemma blob_of_upload_url s f t :
  pdfUrl s = JStr ("/uploads/" +:+ filename f t) → blob_of s = Some (filename f t).
Proof.
  intros E.
  assert (basename ("/uploads/" +:+ filename f t) = filename f t) as Hb.
  { apply (basename_entry "/uploads" (filename f t));
      [apply filename_nonempty | apply filename_no_slash]. }
  unfold blob_of. rewrite E. by rewrite Hb, filePath_filename.
Qed.

(** X17: when every session the closing connection controls has a
    [pdfUrl] that the upload endpoint handed out, the disconnect runs to
    its end: nothing is logged, every session of the connection is out of
    the table, every other session has merely lost the connection as a
    viewer, and the uploaded files of the ended sessions are gone from the
    uploads directory. *)
Theorem disconnect_with_uploaded_urls (c : conn) (sv : server) :
  wf sv →
  (∀ k s, (k, s) ∈ sessions sv → admin s = c → uploaded_url (pdfUrl s)) →
  (∀ text, ConsoleError text ∉ (disconnect c sv).2)
  ∧ (∀ k s, own k (sessions sv) = Some s →
       own k (sessions (disconnect c sv).1)
         = if decide (admin s = c) then None else Some (remove_viewer c s))
  ∧ (∀ k s fieldname now, (k, s) ∈ sessions sv → admin s = c →
       pdfUrl s = JStr ("/uploads/" +:+ filename fieldname now) →
       filename fieldname now ∉ uploads (disconnect c sv).1).
Proof.
  intros Hwf Hu.
  assert (Forall (λ ks, cleanup_throws c (snd ks) = false) (sessions sv)) as Hok.
  { apply Forall_forall. intros [k s] Hks. simpl. unfold cleanup_throws.
    destruct (decide (admin s = c)) as [Hc|Hc].
    - destruct (Hu k s Hks Hc) as (f & t & Hp).
      rewrite (blob_of_upload_url s f t Hp). rewrite (bool_decide_eq_false_2 (Some _ = None)) by done.
      apply andb_false_r.
    - by rewrite (bool_decide_eq_false_2 (admin s = c)). }
  assert (sessions sv = sessions sv ++ []) as Hsv by (by rewrite app_nil_r).
  split; [|split].
  - destruct (disconnect_split c sv (sessions sv) [] Hwf Hsv Hok I)
      as (up' & e & -> & _ & _ & _ & He).
    intros text Ht. simpl in Ht. rewrite !app_nil_r in Ht.
    by destruct (He _ Ht) as (n & ? & _).
  - intros k s Hs.
    apply (own_after_disconnect c sv (sessions sv) [] k s Hwf Hsv Hok).
    by apply own_Some_elem.
  - intros k s f t Hks Hc Hp.
    destruct (disconnect_split c sv (sessions sv) [] Hwf Hsv Hok I)
      as (up' & e & -> & _ & _ & Hblob & _).
    simpl. apply (Hblob k s); [done|done|]. by apply blob_of_upload_url.
Qed.

Lemma disconnect_with_uploaded_urls_witness :
  wf shared_session
  ∧ filename "pdf" 1700000000000 ∉ uploads (disconnect connA shared_session).1.
Proof.
  assert (wf shared_session) as Hwf.
  { apply (bool_decide_unpack _). vm_compute. exact I. }
  split; [exact Hwf|].
  assert (sessions shared_session = [(S1, mkSession connA {[ connB ]} (JNum 5) doc 0)])
    as E by (vm_compute; reflexivity).
  destruct (disconnect_with_uploaded_urls connA shared_session Hwf) as (_ & _ & H).
  - intros k s Hks _. rewrite E in Hks.
    apply list_elem_of_singleton in Hks. injection Hks as -> ->.
    exists "pdf", 1700000000000. vm_compute. reflexivity.
  - apply (H S1 (mkSession connA {[ connB ]} (JNum 5) doc 0)).
    + rewrite E. by apply list_elem_of_singleton.
    + reflexivity.
    + vm_compute. reflexivity.
Defined.

(** ** Sweeping twice *)

(** X18: sweeps compose: a sweep followed by a sweep at the same or a later
    time leaves the server as the later sweep alone would; in particular a
    sweep done twice is the sweep done once. *)
Theorem sweep_then_sweep (now now' : Z) (sv : server) :
  wf sv →
  now ≤ now' →
  (sweep now' (sweep now sv).1).1 = (sweep now' sv).1.
Proof.
  intros Hwf Hle.
  assert (sessions (sweep now' (sweep now sv).1).1 = sessions (sweep now' sv).1) as E.
  { rewrite sweep_sessions by apply (wf_step (Sweep now) sv Hwf).
    rewrite !sweep_sessions by done.
    apply list_filter_filter_l. unfold fresh. intros x. lia. }
  simpl in *. unfold with_sessions in *. simpl in *. by rewrite E.
Qed.

Lemma sweep_then_sweep_witness :
  wf two_sessions
  ∧ (sweep (24 * 60 * 60 * 1000 + 1) (sweep (24 * 60 * 60 * 1000 + 1) two_sessions).1).1
    = (sweep (24 * 60 * 60 * 1000 + 1) two_sessions).1.
Proof.
  assert (wf two_sessions) as Hwf.
  { apply (bool_decide_unpack _). vm_compute. exact I. }
  split; [exact Hwf|].
  apply (sweep_then_sweep _ _ two_sessions Hwf). lia.
Defined.

(** ** Rooms *)






